(** * Retrieval core of the policy chatbot: chunker, vector store, retriever

    A shallow embedding of [src/ingestion.py], [src/vectorstore.py],
    [src/retrieval.py] and the [/ingest] route of [api.py], with the
    properties of the specification stated and proved over it.

    Conventions.
    - A Python [str] is a list of Unicode code points ([pystr]); [len]
      counts code points, as Python does.
    - A Python [int] is a [Z].
    - A Python [float] (IEEE binary64) is the rational it denotes, and
      every arithmetic operation rounds its exact result to 53 significant
      bits, ties to even ([round53]); see [Module PyFloat].
    - An operation that can raise returns a [result]. *)

From Stdlib Require Import Strings.String Strings.Ascii.
From Stdlib Require Import List ZArith NArith QArith Qround Qabs Qpower.
From Stdlib Require Import Lia Lqa Bool.
From Stdlib Require Floats.PrimFloat Floats.FloatOps Floats.SpecFloat.
From Stdlib Require Numbers.Cyclic.Int63.Uint63.
From Stdlib Require Import Sorting.Sorted Sorting.Permutation.
Import ListNotations.

Set Implicit Arguments.

(** ** Python strings *)

Module PyStr.

Definition codepoint := N.
Definition pystr := list codepoint.

(** A literal of the source, as code points. *)
Definition lit (s : string) : pystr :=
  map N_of_ascii (list_ascii_of_string s).

Definition len (s : pystr) : Z := Z.of_nat (length s).

Definition eqb (a b : pystr) : bool :=
  if list_eq_dec N.eq_dec a b then true else false.

(** [s.endswith(suffix)] *)
Definition endswith (s suffix : pystr) : bool :=
  eqb (skipn (length s - length suffix) s) suffix
  && (length suffix <=? length s)%nat.

(** [str.isspace] on one code point: the characters CPython's
    [Py_UNICODE_ISSPACE] accepts. *)
Definition isspace (c : codepoint) : bool :=
  ((9 <=? c) && (c <=? 13) || (28 <=? c) && (c <=? 32)
   || (c =? 133) || (c =? 160) || (c =? 5760)
   || (8192 <=? c) && (c <=? 8202)
   || (c =? 8232) || (c =? 8233) || (c =? 8239) || (c =? 8287)
   || (c =? 12288))%N.

Definition space : codepoint := 32%N.

(** [s.split()] with no argument: maximal runs of non-space characters.
    [cur] is the word being read, most recent character first. *)
Fixpoint split_from (cur : pystr) (s : pystr) : list pystr :=
  match s with
  | [] => match cur with [] => [] | _ => [rev cur] end
  | c :: s' =>
      if isspace c
      then match cur with
           | [] => split_from [] s'
           | _ => rev cur :: split_from [] s'
           end
      else split_from (c :: cur) s'
  end.

Definition split (s : pystr) : list pystr := split_from [] s.

(** [sep.join(parts)] *)
Fixpoint join (sep : pystr) (parts : list pystr) : pystr :=
  match parts with
  | [] => []
  | [p] => p
  | p :: rest => p ++ sep ++ join sep rest
  end.

Fixpoint lstrip (s : pystr) : pystr :=
  match s with
  | [] => []
  | c :: s' => if isspace c then lstrip s' else s
  end.

Definition rstrip (s : pystr) : pystr := rev (lstrip (rev s)).

(** [s.strip()] *)
Definition strip (s : pystr) : pystr := rstrip (lstrip s).

(** [str(n)] for an integer. *)
Fixpoint digits_from (fuel : nat) (n : N) (acc : pystr) : pystr :=
  match fuel with
  | O => acc
  | S fuel' =>
      let acc' := (48 + n mod 10)%N :: acc in
      if (n <? 10)%N then acc' else digits_from fuel' (n / 10)%N acc'
  end.

Definition of_N (n : N) : pystr := digits_from (S (N.to_nat (N.log2 n))) n [].

Definition of_Z (z : Z) : pystr :=
  if (z <? 0)%Z then 45%N :: of_N (Z.to_N (- z)) else of_N (Z.to_N z).

End PyStr.

Import PyStr.

(** ** Python sequences *)

Module PySeq.

(** How a slice bound is read against a sequence of length [n]:
    negative bounds count from the end, and all bounds are clamped. *)
Definition clamp_index (n i : Z) : Z :=
  if (i <? 0)%Z then Z.max (i + n) 0 else Z.min i n.

(** [l[a:b]] *)
Definition slice {A} (l : list A) (a b : Z) : list A :=
  let n := Z.of_nat (length l) in
  let a' := clamp_index n a in
  let b' := clamp_index n b in
  firstn (Z.to_nat (b' - a')) (skipn (Z.to_nat a') l).

(** [range(start, stop, step)] for a positive step. The loop runs at most
    [stop - start] times, which is the fuel given to it. *)
Fixpoint range_from (fuel : nat) (i stop step : Z) : list Z :=
  match fuel with
  | O => []
  | S fuel' =>
      if (i <? stop)%Z then i :: range_from fuel' (i + step) stop step else []
  end.

Definition range (start stop step : Z) : list Z :=
  range_from (Z.to_nat (stop - start)) start stop step.

End PySeq.

Import PySeq.

(** ** [src/ingestion.py]: the chunker *)

Module Ingestion.

Record DocumentIngestor := {
  chunk_size : Z;
  overlap : Z
}.

(** [DocumentIngestor()] with its default arguments. *)
Definition default_ingestor : DocumentIngestor :=
  {| chunk_size := 500; overlap := 100 |}.

Definition step_of (self : DocumentIngestor) : Z :=
  Z.max 1 (chunk_size self - overlap self).

(** The words of the window that starts at word offset [i]:
    [words[i:i + self.chunk_size]]. *)
Definition window (self : DocumentIngestor) (words : list pystr) (i : Z)
  : list pystr :=
  slice words i (i + chunk_size self).

(** [" ".join(words[i:i + self.chunk_size]).strip()] *)
Definition block_at (self : DocumentIngestor) (words : list pystr) (i : Z)
  : pystr :=
  strip (join [space] (window self words i)).

(** One iteration of the loop body, on the list [chunks] built so far. *)
Definition chunk_body (self : DocumentIngestor) (words : list pystr)
    (chunks : list pystr) (i : Z) : list pystr :=
  let block := block_at self words i in
  if (50 <? len block)%Z then chunks ++ [block] else chunks.

Definition chunk_text (self : DocumentIngestor) (text : pystr) : list pystr :=
  let words := split text in
  let step := step_of self in
  fold_left (chunk_body self words)
    (range 0 (Z.of_nat (length words)) step) [].

End Ingestion.

Import Ingestion.

(** ** Exceptions *)

Inductive exn :=
| AssertionError
| IndexError
| ZeroDivisionError
| FileNotFoundError
| PermissionError
| UnicodeDecodeError
| PdfReadError
| HTTPException (status_code : Z) (detail : pystr).

Inductive result (A : Type) :=
| Ok (a : A)
| Raise (e : exn).

Arguments Ok {A} a.
Arguments Raise {A} e.

Definition bind {A B} (r : result A) (k : A -> result B) : result B :=
  match r with
  | Ok a => k a
  | Raise e => Raise e
  end.

Notation "x <- r ;; k" := (bind r (fun x => k))
  (at level 61, r at next level, right associativity).

(** A [for] loop whose body can raise: the first exception ends it. *)
Fixpoint for_each {A S} (body : S -> A -> result S) (l : list A) (s : S)
  : result S :=
  match l with
  | [] => Ok s
  | a :: l' => s' <- body s a ;; for_each body l' s'
  end.

(** [enumerate(l, start)] *)
Fixpoint enumerate {A} (start : Z) (l : list A) : list (Z * A) :=
  match l with
  | [] => []
  | a :: l' => (start, a) :: enumerate (start + 1) l'
  end.

(** ** Python floats *)

(** Python's [float] is IEEE binary64. A finite value is modelled by the
    rational it denotes, and an operation by the rounding of its exact
    result to 53 significant bits, ties to even. The exponent is not
    bounded: the model is exact while results stay in the normal range of
    binary64, as they do for [1 / (1 + d)] with [d] a binary32 distance
    that is not negative. Infinities and NaN are not modelled. *)

Module PyFloat.

Local Open Scope Q_scope.

(** A finite binary64 value, as the rational it denotes. *)
Definition float := Q.

Definition pow2 (e : Z) : Q := 2 ^ e.

(** The integer nearest to [x], ties to the even one. *)
Definition rne (x : Q) : Z :=
  let f := Qfloor x in
  match Qcompare (x - inject_Z f)%Q (1 # 2)%Q with
  | Lt => f
  | Gt => (f + 1)%Z
  | Eq => if Z.even f then f else (f + 1)%Z
  end.

(** For [0 < x], the exponent [e] with [2^e <= x < 2^(e+1)]. *)
Definition ilog2 (x : Q) : Z :=
  let e0 := (Z.log2 (Qnum x) - Z.log2 (Zpos (Qden x)))%Z in
  if Qle_bool (pow2 e0) x then e0 else (e0 - 1)%Z.

(** Rounding to [p] significant bits, ties to even, for an exponent range
    wide enough that neither overflow nor underflow occurs. *)
Definition round_to (p : Z) (x : Q) : Q :=
  match Qnum x with
  | Z0 => 0
  | _ =>
      let k := (ilog2 (Qabs x) - (p - 1))%Z in
      Qred (inject_Z (rne (x / pow2 k)) * pow2 k)
  end.

Definition round53 : Q -> float := round_to 53.

(** [x + y] *)
Definition fadd (x y : float) : float := round53 (x + y).

(** [x / y] *)
Definition fdiv (x y : float) : result float :=
  if Qeq_bool y 0 then Raise ZeroDivisionError else Ok (round53 (x / y)).

(** The decimal with two fractional digits nearest to [x], in hundredths:
    both [round(x, 2)] and the format [.2f] go through the correctly
    rounded decimal conversion of the exact value of [x]. *)
Definition hundredths (x : float) : Z := rne (x * 100)%Q.

(** [round(x, 2)] *)
Definition round2 (x : float) : float :=
  round53 (inject_Z (hundredths x) / 100).

Definition two_digits (n : Z) : pystr :=
  [(48 + Z.to_N (n / 10)%Z)%N; (48 + Z.to_N (n mod 10)%Z)%N].

(** [f"{x:.2f}"] *)
Definition format_2f (x : float) : pystr :=
  let h := Z.abs (hundredths x) in
  (if Qlt_le_dec x 0 then [45%N] else [])
  ++ of_Z (h / 100)%Z ++ [46%N] ++ two_digits (h mod 100)%Z.

(** The largest finite binary32 value; every distance a flat index
    returns is a binary32 number. *)
Definition FLT_MAX : float := inject_Z (2 ^ 128 - 2 ^ 104)%Z.

End PyFloat.

Import PyFloat.

(** ** The flat L2 index of the vector-search library *)

Module Faiss.

Section Index.

Variable vector : Type.

(** The squared Euclidean distance the library computes between a query
    and a stored vector, a binary32 number. *)
Variable l2sqr : vector -> vector -> float.

(** Insertion of one (distance, label) pair into a list sorted by
    distance; among equal distances the earlier label stays first. *)
Fixpoint insert_by_distance (p : float * Z) (l : list (float * Z))
  : list (float * Z) :=
  match l with
  | [] => [p]
  | h :: t =>
      if Qle_bool (fst p) (fst h) then p :: h :: t
      else h :: insert_by_distance p t
  end.

Definition sort_by_distance (l : list (float * Z)) : list (float * Z) :=
  fold_right insert_by_distance [] l.

(** The brute-force scan: the distance from [q] to every stored vector,
    each with its position as label. *)
Definition scan (xb : list vector) (q : vector) : list (float * Z) :=
  map (fun iv => (l2sqr q (snd iv), fst iv)) (enumerate 0 xb).

(** Modelled from the spec: the library routine [IndexFlatL2.search] is
    not part of the repository. It is an exact scan (section 4.2): the
    [k] nearest stored vectors by ascending distance. A row is padded
    with label [-1] when fewer than [k] vectors are stored. *)
Definition knn (xb : list vector) (k : Z) (q : vector) : list (float * Z) :=
  let found := firstn (Z.to_nat k) (sort_by_distance (scan xb q)) in
  found ++ repeat (FLT_MAX, (-1)%Z) (Z.to_nat k - length found).

(** [index.search(xq, k)]: one row of distances and one row of labels
    for each query; the library asserts [k > 0]. *)
Definition search (xb : list vector) (xq : list vector) (k : Z)
  : result (list (list float) * list (list Z)) :=
  if (k <=? 0)%Z then Raise AssertionError
  else Ok (map (fun q => map fst (knn xb k q)) xq,
           map (fun q => map snd (knn xb k q)) xq).

End Index.

End Faiss.

(** ** [src/vectorstore.py] *)

Module VectorStore.

(** A metadata record, [{"text": ..., "source": ..., "chunk_id": ...}]. *)
Record Meta := {
  text : pystr;
  source : pystr;
  chunk_id : Z
}.

Section Store.

Variable vector : Type.

(** [self.model.encode(texts, convert_to_numpy=True).astype("float32")]:
    the rows of the embedding matrix of a batch of texts. *)
Variable encode : list pystr -> list vector.

Variable l2sqr : vector -> vector -> float.

(** The fields of a store that change: the rows of [self.index] and
    [self.metadata]. *)
Record FAISSVectorStore := {
  index : list vector;
  metadata : list Meta
}.

(** The two files of a store: [index_path] and [index_path + ".meta"],
    each absent or holding what was last written to it. *)
Record Disk := {
  index_file : option (list vector);
  metadata_file : option (list Meta)
}.

Definition no_files : Disk :=
  {| index_file := None; metadata_file := None |}.

(** [self.index.ntotal] *)
Definition ntotal (self : FAISSVectorStore) : Z :=
  Z.of_nat (length (index self)).

(** [FAISSVectorStore.__init__] *)
Definition init (disk : Disk) : result FAISSVectorStore :=
  match index_file disk, metadata_file disk with
  | Some rows, Some metas => Ok {| index := rows; metadata := metas |}
  | _, _ => Ok {| index := []; metadata := [] |}
  end.

Definition save (self : FAISSVectorStore) (disk : Disk) : Disk :=
  let disk1 := {| index_file := Some (index self);
                  metadata_file := metadata_file disk |} in
  {| index_file := index_file disk1;
     metadata_file := Some (metadata self) |}.

(** The duplicate guard:
    [any(m["source"] == source for m in self.metadata)]. *)
Definition already_indexed (self : FAISSVectorStore) (src : pystr) : bool :=
  existsb (fun m => eqb (source m) src) (metadata self).

(** The loop [for i, text in enumerate(chunks): self.metadata.append(...)] *)
Definition append_metadata (metas : list Meta) (chunks : list pystr)
    (src : pystr) : list Meta :=
  fold_left
    (fun acc it =>
       acc ++ [{| text := snd it; source := src; chunk_id := fst it |}])
    (enumerate 0 chunks) metas.

Definition add_documents (self : FAISSVectorStore) (disk : Disk)
    (chunks : list pystr) (src : pystr) : FAISSVectorStore * Disk :=
  if already_indexed self src then (self, disk)
  else
    match chunks with
    | [] => (self, disk)
    | _ =>
        let embeddings := encode chunks in
        let self1 := {| index := index self ++ embeddings;
                        metadata := metadata self |} in
        let self2 := {| index := index self1;
                        metadata := append_metadata (metadata self1)
                                      chunks src |} in
        (self2, save self2 disk)
    end.

(** [row[0]] of a matrix returned by the library. *)
Definition first_row {A} (rows : list (list A)) : result (list A) :=
  match rows with
  | [] => Raise IndexError
  | r :: _ => Ok r
  end.

(** The body of the loop over [zip(D[0], I[0])]. *)
Definition collect (self : FAISSVectorStore) (out : list (Meta * float))
    (di : float * Z) : list (Meta * float) :=
  let (dist, idx) := di in
  if (0 <=? idx)%Z && (idx <? Z.of_nat (length (metadata self)))%Z
  then match nth_error (metadata self) (Z.to_nat idx) with
       | Some m => out ++ [(m, dist)]
       | None => out
       end
  else out.

Definition search (self : FAISSVectorStore) (query : pystr) (top_k : Z)
  : result (list (Meta * float)) :=
  if (ntotal self =? 0)%Z then Ok []
  else
    let qemb := encode [query] in
    DI <- Faiss.search l2sqr (index self) qemb (Z.min top_k (ntotal self)) ;;
    D0 <- first_row (fst DI) ;;
    I0 <- first_row (snd DI) ;;
    Ok (fold_left (collect self) (combine D0 I0) []).

Record Stats := {
  total_chunks : Z;
  total_documents : Z;
  sources : list pystr
}.

(** The distinct sources, [list({m["source"] for m in self.metadata})],
    in one of the orders a set can be listed in. *)
Definition distinct_sources (metas : list Meta) : list pystr :=
  nodup (list_eq_dec N.eq_dec) (map source metas).

Definition get_stats (self : FAISSVectorStore) : Stats :=
  let srcs := distinct_sources (metadata self) in
  {| total_chunks := ntotal self;
     total_documents := Z.of_nat (length srcs);
     sources := srcs |}.

End Store.

End VectorStore.

(** ** [src/retrieval.py] *)

Module Retrieval.

Import VectorStore.

(** The entries of [chunks] returned by [retrieve_with_chunks]. *)
Record ChunkView := {
  cv_text : pystr;
  cv_source : pystr;
  cv_chunk_id : Z;
  relevance_score : float
}.

Definition newline : pystr := [10%N].

(** ["\n\n---\n\n"] *)
Definition delimiter : pystr :=
  newline ++ newline ++ lit "---" ++ newline ++ newline.

Definition sentinel : pystr := lit "No relevant documents found.".

(** [sim = 1 / (1 + dist)] *)
Definition score (dist : float) : result float := fdiv 1 (fadd 1 dist).

(** [f"[Source {i}: {m['source']}, Chunk {m['chunk_id']}]\n{m['text']}"] *)
Definition context_part (i : Z) (m : Meta) : pystr :=
  lit "[Source " ++ of_Z i ++ lit ": " ++ source m ++ lit ", Chunk "
  ++ of_Z (chunk_id m) ++ lit "]" ++ newline ++ text m.

(** [f"{m['source']} (Chunk {m['chunk_id']}, Relevance: {sim:.2f})"] *)
Definition citation (m : Meta) (sim : float) : pystr :=
  source m ++ lit " (Chunk " ++ of_Z (chunk_id m) ++ lit ", Relevance: "
  ++ format_2f sim ++ lit ")".

Definition chunk_view (m : Meta) (sim : float) : ChunkView :=
  {| cv_text := text m; cv_source := source m; cv_chunk_id := chunk_id m;
     relevance_score := round2 sim |}.

(** The loop body of [retrieve], on [(context_parts, citations)]. *)
Definition retrieve_body (acc : list pystr * list pystr)
    (it : Z * (Meta * float)) : result (list pystr * list pystr) :=
  let '(i, (m, dist)) := it in
  sim <- score dist ;;
  Ok (fst acc ++ [context_part i m], snd acc ++ [citation m sim]).

(** The loop body of [retrieve_with_chunks], on
    [(chunks, context_parts, citations)]. *)
Definition retrieve_with_chunks_body
    (acc : list ChunkView * list pystr * list pystr)
    (it : Z * (Meta * float))
  : result (list ChunkView * list pystr * list pystr) :=
  let '(i, (m, dist)) := it in
  let '(chunks, context_parts, citations) := acc in
  sim <- score dist ;;
  Ok (chunks ++ [chunk_view m sim],
      context_parts ++ [context_part i m],
      citations ++ [citation m sim]).

Section Retriever.

Variable vector : Type.
Variable encode : list pystr -> list vector.
Variable l2sqr : vector -> vector -> float.

Definition retrieve (vectorstore : FAISSVectorStore vector) (query : pystr)
    (top_k : Z)
  : result (pystr * list pystr) :=
  results <- search encode l2sqr vectorstore query top_k ;;
  match results with
  | [] => Ok (sentinel, [])
  | _ =>
      acc <- for_each retrieve_body (enumerate 1 results) ([], []) ;;
      Ok (join delimiter (fst acc), snd acc)
  end.

Definition retrieve_with_chunks (vectorstore : FAISSVectorStore vector)
    (query : pystr) (top_k : Z) : result (list ChunkView * pystr * list pystr) :=
  results <- search encode l2sqr vectorstore query top_k ;;
  match results with
  | [] => Ok ([], sentinel, [])
  | _ =>
      acc <- for_each retrieve_with_chunks_body (enumerate 1 results)
               ([], [], []) ;;
      let '(chunks, context_parts, citations) := acc in
      Ok (chunks, join delimiter context_parts, citations)
  end.

End Retriever.

End Retrieval.

(** ** [api.py]: the [/ingest] route *)

Module Api.

Import VectorStore.

(** [os.path.join("data", name)] on a POSIX system. *)
Definition join_data (name : pystr) : pystr :=
  match name with
  | 47%N :: _ => name
  | _ => lit "data/" ++ name
  end.

(** [os.path.basename(path)]: what follows the last ["/"]. *)
Fixpoint basename (path : pystr) : pystr :=
  match path with
  | [] => []
  | c :: rest =>
      if existsb (N.eqb 47) rest then basename rest
      else if (c =? 47)%N then rest else path
  end.

(** [DocumentIngestor.process_document]. [contents] is the text that
    [load_pdf] or [load_txt] reads from the file at [filepath]. *)
Definition process_document (self : DocumentIngestor) (filepath : pystr)
    (contents : pystr) : list pystr * pystr :=
  let filename := basename filepath in
  if endswith filepath (lit ".pdf") then (chunk_text self contents, filename)
  else if endswith filepath (lit ".txt")
       then (chunk_text self contents, filename)
       else ([], filename).

(** The JSON object the route answers with. *)
Record IngestResponse := {
  status : pystr;
  filename : pystr;
  chunks_created : Z
}.

Section Route.

Variable vector : Type.
Variable encode : list pystr -> list vector.

(** [process_document] as the route runs it, on a file that has just been
    written: [loaded] is what the loader called for [filepath] gives,
    the text of the file or the exception it raises ([load_txt] decodes
    the file as UTF-8, [load_pdf] parses it). No loader runs for a path
    of another type. *)
Definition process_document_file (self : DocumentIngestor)
    (filepath : pystr) (loaded : result pystr)
  : result (list pystr * pystr) :=
  let filename := basename filepath in
  if endswith filepath (lit ".pdf")
  then text <- loaded ;; Ok (chunk_text self text, filename)
  else if endswith filepath (lit ".txt")
       then text <- loaded ;; Ok (chunk_text self text, filename)
       else Ok ([], filename).

(** The route, on the module-level store [vs] and its files.
    [written path] is the outcome of lines 42-44 in the file system of
    the server: [os.makedirs("data", exist_ok=True)], then
    [open(path, "wb")] and the write of the upload; [loaded] is the
    outcome of the loader on the file written. Neither exception is
    caught by the route: it leaves the handler as it is. The store and
    files the route leaves behind are returned with the answer. *)
Definition ingest (ingestor : DocumentIngestor)
    (vs : FAISSVectorStore vector) (disk : Disk vector)
    (written : pystr -> result unit) (loaded : result pystr)
    (upload_name : pystr)
  : FAISSVectorStore vector * Disk vector * result IngestResponse :=
  if negb (endswith upload_name (lit ".pdf")
           || endswith upload_name (lit ".txt"))
  then (vs, disk, Raise (HTTPException 400 (lit "Only PDF/TXT supported")))
  else
    let path := join_data upload_name in
    match written path with
    | Raise e => (vs, disk, Raise e)
    | Ok _ =>
        match process_document_file ingestor path loaded with
        | Raise e => (vs, disk, Raise e)
        | Ok (chunks, name) =>
            match chunks with
            | [] =>
                (vs, disk,
                 Raise (HTTPException 400 (lit "No extractable text")))
            | _ =>
                let (vs', disk') :=
                  add_documents encode vs disk chunks name in
                (vs', disk',
                 Ok {| status := lit "success"; filename := name;
                       chunks_created := Z.of_nat (length chunks) |})
            end
        end
    end.

End Route.

End Api.

(** ** Vocabulary of the statements *)

(** A word as [split] produces it: not empty, no white space inside. *)
Definition spaceless (w : pystr) : Prop :=
  Forall (fun c => isspace c = false) w.

Definition is_word (w : pystr) : Prop := w <> [] /\ spaceless w.

(** A string that is empty or starts with a character that is no space. *)
Definition clean_head (s : pystr) : Prop :=
  match s with
  | [] => True
  | c :: _ => isspace c = false
  end.

(** What one window contributes to the result. *)
Definition emitted (self : DocumentIngestor) (words : list pystr) (i : Z)
  : list pystr :=
  if (50 <? len (block_at self words i))%Z
  then [block_at self words i] else [].

Section StoreVocabulary.

Import VectorStore.

Variable vector : Type.
Variable encode : list pystr -> list vector.
Variable l2sqr : vector -> vector -> float.

(** The store a process starts with when no file exists. *)
Definition fresh : FAISSVectorStore vector :=
  {| index := []; metadata := [] |}.

(** A sequence of [add_documents] calls, each with its chunks and its
    source, run in order on a store and its files. *)
Definition add_all (calls : list (list pystr * pystr))
    (w : FAISSVectorStore vector * Disk vector)
  : FAISSVectorStore vector * Disk vector :=
  fold_left
    (fun w call => add_documents encode (fst w) (snd w) (fst call) (snd call))
    calls w.

(** The metadata records of one batch, in the order of its chunks. *)
Definition batch_metadata (chunks : list pystr) (src : pystr) : list Meta :=
  map (fun it => {| text := snd it; source := src; chunk_id := fst it |})
      (enumerate 0 chunks).

(** Vector [v] and record [m] come from the same chunk: some call of
    [calls] embedded a batch in which [v] is the row of chunk number [j]
    and [m] is the record made for chunk number [j]. *)
Definition corresponds (calls : list (list pystr * pystr))
    (v : vector) (m : Meta) : Prop :=
  exists chunks src j t,
    In (chunks, src) calls
    /\ nth_error chunks j = Some t
    /\ nth_error (encode chunks) j = Some v
    /\ m = {| text := t; source := src; chunk_id := Z.of_nat j |}.

(** Result [r] is the stored vector at position [i]: its record, and its
    distance to the query vector [qv]. *)
Definition hit (self : FAISSVectorStore vector) (qv : vector) (i : nat)
    (r : Meta * float) : Prop :=
  nth_error (metadata self) i = Some (fst r)
  /\ exists v, nth_error (index self) i = Some v /\ snd r = l2sqr qv v.

(** The invariant of a store and its files: rows and records are paired
    position by position, and the files, once written, hold the same rows
    and records as the store. *)
Definition paired (calls : list (list pystr * pystr))
    (w : FAISSVectorStore vector * Disk vector) : Prop :=
  Forall2 (corresponds calls) (index (fst w)) (metadata (fst w))
  /\ (snd w = no_files vector
      \/ snd w = {| index_file := Some (index (fst w));
                    metadata_file := Some (metadata (fst w)) |}).

(** The two files contradict each other: only one of them exists, or
    they hold different numbers of entries. *)
Definition files_disagree (disk : Disk vector) : Prop :=
  match index_file disk, metadata_file disk with
  | Some rows, Some metas => length rows <> length metas
  | None, None => False
  | _, _ => True
  end.

(** Order of (distance, label) pairs by distance. *)
Definition by_distance (a b : float * Z) : Prop := (fst a <= fst b)%Q.

End StoreVocabulary.

(** A concrete embedding model for examples: a text is embedded as its
    length, and the distance is the squared difference. *)
Definition length_encode (texts : list pystr) : list Q :=
  map (fun t => inject_Z (len t)) texts.

Definition square_distance (a b : Q) : float := (a - b) * (a - b).

(** [h] hundredths is the decimal with two fractional digits nearest to
    [x]: at most half a hundredth away, and the even one when [x] lies
    halfway between two of them. *)
Definition nearest_hundredth (x : Q) (h : Z) : Prop :=
  (inject_Z h - (1 # 2) <= x * 100 <= inject_Z h + (1 # 2))%Q
  /\ ((x * 100 == inject_Z h - (1 # 2))%Q
       \/ (x * 100 == inject_Z h + (1 # 2))%Q ->
      Z.even h = true).

(** [r] is [x] rounded to two decimals: the binary64 value nearest to the
    two-digit decimal nearest to [x]. *)
Definition rounded_to_2_decimals (x r : float) : Prop :=
  exists h : Z,
    nearest_hundredth x h /\ r = round53 (inject_Z h / 100)%Q.



(** ** The hardware floats, to test the model of binary64 against *)

Module Binary64.

Import PrimFloat FloatOps SpecFloat.

(** The rational a binary64 value denotes, if it is finite. *)
Definition to_Q (f : PrimFloat.float) : option Q :=
  match Prim2SF f with
  | S754_zero _ => Some 0%Q
  | S754_finite s m e =>
      Some (Qred ((if s then -1 else 1) * inject_Z (Zpos m) * pow2 e)%Q)
  | _ => None
  end.

(** The binary64 value [m * 2^e], for [m] below [2^53]. *)
Definition of_dyadic (m e : Z) : PrimFloat.float :=
  Z.ldexp (of_uint63 (Uint63.of_Z m)) e.

(** [1 / (1 + dist)] as the processor computes it. *)
Definition score (dist : PrimFloat.float) : PrimFloat.float :=
  (1 / (1 + dist))%float.

(** The two-digit decimal [h / 100] as the processor has it: the
    quotient of two integers that are floats is correctly rounded. *)
Definition hundredth (h : Z) : PrimFloat.float :=
  (of_dyadic h 0 / of_dyadic 100 0)%float.

End Binary64.

(** Distances [m * 2^e] that are binary32 numbers, across the range. *)
Definition sample_distances : list (Z * Z) :=
  [ (0, 0); (1, -149); (1, -60); (1, -59); (1, -53); (3, -54); (3, -55);
    (5, -56); (1, -52); (9999999, -76); (999999, -33); (8388609, -30);
    (16777215, -25); (16777213, -24); (11111111, -24); (8388609, -23);
    (12345677, -20); (123457, -10); (1000001, -8); (13, -5); (7, -3);
    (1, -1); (1, 0); (5, -1); (3, 0); (1, 1); (100, 0);
    (16777215, 104) ]%Z.

(** ** Sample inputs *)

(** A text of 1200 distinct words, [w0 w1 ... w1199]. *)
Definition sample_words : list pystr :=
  map (fun k => lit "w" ++ of_Z (Z.of_nat k)) (seq 0 1200).

Definition sample_text : pystr := join [space] sample_words.

Definition sample_record : VectorStore.Meta :=
  {| VectorStore.text := lit "first chunk";
     VectorStore.source := lit "A.txt";
     VectorStore.chunk_id := 0 |}.

(** Files as a process leaves them when it stops between the two writes
    of [save]: the index file holds three vectors, the metadata file still
    the one record written before. [torn_store] is the store they are
    opened as. *)
Definition torn_files : VectorStore.Disk Q :=
  {| VectorStore.index_file := Some [1; 2; 3];
     VectorStore.metadata_file := Some [sample_record] |}.

Definition torn_store : VectorStore.FAISSVectorStore Q :=
  {| VectorStore.index := [1; 2; 3];
     VectorStore.metadata := [sample_record] |}.

(** Only the metadata file exists. *)
Definition orphan_files : VectorStore.Disk Q :=
  {| VectorStore.index_file := None;
     VectorStore.metadata_file := Some [sample_record] |}.

(** Three chunks of one source, and a store that holds them. *)
Definition sample_chunks : list pystr := [lit "aaa"; lit "b"; lit "cccccc"].

Definition sample_store : VectorStore.FAISSVectorStore Q :=
  fst (VectorStore.add_documents length_encode (fresh Q)
         (VectorStore.no_files Q) sample_chunks (lit "A.txt")).

(** A document of 600 words, and its record in a result list. *)
Definition handbook_text : pystr := join [space] (firstn 600 sample_words).

Definition handbook_record : VectorStore.Meta :=
  {| VectorStore.text := lit "Vacation is paid.";
     VectorStore.source := lit "handbook.txt";
     VectorStore.chunk_id := 1 |}.

(** A text of eleven words, one chunk for the default chunker. *)
Definition policy_text : pystr :=
  lit "Employees accrue two days of paid vacation for every month worked.".

(** Four calls: two new sources, a repeated source, an empty batch. *)
Definition sample_calls : list (list pystr * pystr) :=
  [ (sample_chunks, lit "A.txt");
    ([lit "dd"; lit "eeee"], lit "B.txt");
    ([lit "zz"], lit "A.txt");
    ([], lit "C.txt") ].

(** ** More of the code *)

(** *** [src/ingestion.py]: the PDF loader *)

Module Loader.

(** [page.extract_text() or ""] *)
Definition extract_or_empty (page : option pystr) : pystr :=
  match page with
  | Some t => t
  | None => []
  end.

(** [DocumentIngestor.load_pdf]. [pages] is what [extract_text] gives
    for each page of the file, in order. *)
Definition load_pdf (pages : list (option pystr)) : pystr :=
  fold_left
    (fun text page => text ++ (extract_or_empty page ++ Retrieval.newline))
    pages [].

End Loader.

(** *** [api.py]: the [/stats] and [/retrieve] routes *)

Module Routes.

Import VectorStore Retrieval.

(** The JSON object the [/retrieve] route answers with. *)
Record RetrieveResponse := {
  query_echo : pystr;
  top_chunks : list ChunkView;
  citations : list pystr;
  formatted_context : pystr
}.

Section Routes.

Variable vector : Type.
Variable encode : list pystr -> list vector.
Variable l2sqr : vector -> vector -> float.

Definition stats (vs : FAISSVectorStore vector) : Stats := get_stats vs.

Definition retrieve (vs : FAISSVectorStore vector) (query : pystr)
    (top_k : Z) : result RetrieveResponse :=
  if (total_chunks (get_stats vs) =? 0)%Z
  then Raise (HTTPException 400 (lit "Index is empty."))
  else
    r <- retrieve_with_chunks encode l2sqr vs query top_k ;;
    let '(chunks, context, cites) := r in
    Ok {| query_echo := query; top_chunks := chunks; citations := cites;
          formatted_context := context |}.

End Routes.

End Routes.

(** *** [app.py]: the upload loop of a chat *)

Module App.

Import VectorStore Api.

Section Upload.

Variable vector : Type.
Variable encode : list pystr -> list vector.






End Upload.

(** The title of a chat after its first question:
    [query[:40] + "..." if len(query) > 40 else query]. *)
Definition display_title (query : pystr) : pystr :=
  if (40 <? len query)%Z then slice query 0 40 ++ lit "..." else query.

End App.

(** *** Vocabulary of the further statements *)

(** The records of one source, in stored order. *)
Definition records_of (src : pystr) (metas : list VectorStore.Meta)
  : list VectorStore.Meta :=
  filter (fun m => eqb (VectorStore.source m) src) metas.

(** The chunks of the first call for [src] that has chunks at all. *)
Fixpoint first_batch (calls : list (list pystr * pystr)) (src : pystr)
  : option (list pystr) :=
  match calls with
  | [] => None
  | (chunks, s) :: rest =>
      match chunks with
      | _ :: _ => if eqb s src then Some chunks else first_batch rest src
      | [] => first_batch rest src
      end
  end.

(** What identifies a record: its source and its chunk id. *)
Definition record_key (m : VectorStore.Meta) : pystr * Z :=
  (VectorStore.source m, VectorStore.chunk_id m).





(** A file name as a browser sends it: no directory part. *)
Definition plain_name (name : pystr) : Prop := ~ In 47%N name.

(** The citation of a result, for a distance that is not negative. *)
Definition cite (r : VectorStore.Meta * float) : pystr :=
  Retrieval.citation (fst r) (round53 (1 / round53 (1 + snd r))%Q).

(** A server whose working directory has the directory [data] with
    nothing below it: a file can be created directly in [data], and in
    no other place ([open] finds no such directory). *)
Definition flat_data_dir (path : pystr) : result unit :=
  if eqb path (lit "data/" ++ Api.basename path)
     && negb (eqb (Api.basename path) [])
  then Ok tt
  else Raise FileNotFoundError.

(** Two pages of a PDF, the second without text. *)
Definition sample_pages : list (option pystr) :=
  [Some (lit "Paid leave accrues"); None; Some (lit "every month.")].

(** * Properties *)

(** ** Python strings and sequences *)

Section StringFacts.

Lemma eqb_eq (a b : pystr) : eqb a b = true <-> a = b.
Proof.
  unfold eqb. destruct (list_eq_dec N.eq_dec a b); split; congruence.
Qed.


Lemma spaceless_rev w : spaceless w -> spaceless (rev w).
Proof. unfold spaceless. apply Forall_rev. Qed.

Lemma is_word_rev w : is_word w -> is_word (rev w).
Proof.
  intros [Hne Hs]. split.
  - intro E. apply Hne. rewrite <- (rev_involutive w), E. reflexivity.
  - now apply spaceless_rev.
Qed.

Lemma split_from_words s :
  forall cur, spaceless cur -> Forall is_word (split_from cur s).
Proof.
  induction s as [|c s IH]; intros cur Hcur; simpl.
  - destruct cur; [constructor|].
    constructor; [|constructor].
    apply is_word_rev. split; [discriminate | assumption].
  - destruct (isspace c) eqn:Hc.
    + destruct cur.
      * apply IH. constructor.
      * constructor.
        -- apply is_word_rev. split; [discriminate | assumption].
        -- apply IH. constructor.
    + apply IH. constructor; assumption.
Qed.

Lemma split_words s : Forall is_word (split s).
Proof. apply split_from_words. constructor. Qed.

Lemma split_from_spaceless w :
  spaceless w ->
  forall cur s, split_from cur (w ++ s) = split_from (rev w ++ cur) s.
Proof.
  induction 1 as [|c w Hc Hw IH]; intros cur s; simpl.
  - reflexivity.
  - rewrite Hc, IH, <- app_assoc. reflexivity.
Qed.

Lemma split_join ws :
  Forall is_word ws -> split (join [space] ws) = ws.
Proof.
  unfold split.
  induction 1 as [|w ws [Hne Hs] Hws IH]; [reflexivity|].
  destruct ws as [|w' ws'].
  - pose proof (split_from_spaceless Hs [] []) as Hw.
    rewrite !app_nil_r in Hw. simpl. rewrite Hw. simpl.
    destruct (rev w) eqn:E.
    + exfalso. apply Hne. rewrite <- (rev_involutive w), E. reflexivity.
    + rewrite <- E, rev_involutive. reflexivity.
  - change (join [space] (w :: w' :: ws'))
      with (w ++ [space] ++ join [space] (w' :: ws')).
    rewrite split_from_spaceless by assumption.
    rewrite app_nil_r. simpl app.
    cbn [split_from]. change (isspace space) with true. cbv iota.
    destruct (rev w) eqn:E.
    + exfalso. apply Hne. rewrite <- (rev_involutive w), E. reflexivity.
    + rewrite <- E, rev_involutive. f_equal. exact IH.
Qed.

Lemma lstrip_clean s : clean_head s -> lstrip s = s.
Proof. destruct s; simpl; [reflexivity|]. now intros ->. Qed.

Lemma join_clean_head ws : Forall is_word ws -> clean_head (join [space] ws).
Proof.
  intros H. destruct H as [|w ws [Hne Hs] Hws]; simpl; [exact I|].
  destruct w as [|c w]; [contradiction|].
  inversion Hs; subst.
  destruct ws; simpl; assumption.
Qed.

Lemma rev_join ws :
  rev (join [space] ws) = join [space] (rev (map (@rev codepoint) ws)).
Proof.
  assert (Hsnoc : forall l w, l <> [] ->
            join [space] (l ++ [w]) = join [space] l ++ [space] ++ w).
  { induction l as [|a l IH]; intros w Hl; [contradiction|].
    destruct l as [|b l].
    - reflexivity.
    - change (join [space] ((a :: b :: l) ++ [w]))
        with (a ++ [space] ++ join [space] ((b :: l) ++ [w])).
      rewrite IH by discriminate.
      change (join [space] (a :: b :: l))
        with (a ++ [space] ++ join [space] (b :: l)).
      rewrite <- !app_assoc. reflexivity. }
  induction ws as [|w ws IH]; [reflexivity|].
  destruct ws as [|w' ws'].
  - reflexivity.
  - change (join [space] (w :: w' :: ws'))
      with (w ++ [space] ++ join [space] (w' :: ws')).
    rewrite !rev_app_distr, IH.
    change (map (@rev codepoint) (w :: w' :: ws'))
      with (rev w :: map (@rev codepoint) (w' :: ws')).
    change (rev (rev w :: map (@rev codepoint) (w' :: ws')))
      with (rev (map (@rev codepoint) (w' :: ws')) ++ [rev w]).
    rewrite Hsnoc.
    + rewrite <- app_assoc. reflexivity.
    + simpl. intro E. apply app_eq_nil in E. destruct E; discriminate.
Qed.

Lemma strip_join ws :
  Forall is_word ws -> strip (join [space] ws) = join [space] ws.
Proof.
  intros H. unfold strip, rstrip.
  rewrite (@lstrip_clean _ (join_clean_head H)).
  rewrite rev_join, lstrip_clean.
  - rewrite <- rev_join. apply rev_involutive.
  - apply join_clean_head. apply Forall_rev.
    apply Forall_map. revert H. apply Forall_impl.
    apply is_word_rev.
Qed.

Lemma join_length ws :
  Forall is_word ws -> (2 * length ws <= S (length (join [space] ws)))%nat.
Proof.
  induction 1 as [|w ws [Hne Hs] Hws IH]; simpl; [lia|].
  destruct w as [|c w]; [contradiction|].
  destruct ws as [|w' ws']; [simpl; lia|].
  rewrite !length_app. simpl length in *. lia.
Qed.

End StringFacts.

Section SequenceFacts.

Lemma range_from_nth fuel :
  forall i stop step k,
    (1 <= step)%Z -> (stop - i <= Z.of_nat fuel)%Z ->
    nth_error (range_from fuel i stop step) k =
    if (i + Z.of_nat k * step <? stop)%Z
    then Some (i + Z.of_nat k * step)%Z else None.
Proof.
  induction fuel as [|fuel IH]; intros i stop step k Hstep Hfuel.
  - destruct (Z.ltb_spec (i + Z.of_nat k * step) stop); [nia|].
    destruct k; reflexivity.
  - cbn [range_from]. destruct (Z.ltb_spec i stop) as [Hlt|Hge].
    + destruct k as [|k].
      * simpl. rewrite Z.add_0_r.
        destruct (Z.ltb_spec i stop); [reflexivity | lia].
      * cbn [nth_error]. rewrite IH by lia.
        replace (i + step + Z.of_nat k * step)%Z
          with (i + Z.of_nat (S k) * step)%Z by lia.
        reflexivity.
    + destruct (Z.ltb_spec (i + Z.of_nat k * step) stop); [nia|].
      destruct k; reflexivity.
Qed.

Lemma range_nth stop step k :
  (1 <= step)%Z ->
  nth_error (range 0 stop step) k =
  if (Z.of_nat k * step <? stop)%Z then Some (Z.of_nat k * step)%Z else None.
Proof.
  intros Hstep. unfold range. rewrite range_from_nth by lia.
  reflexivity.
Qed.

Lemma range_bounds stop step i :
  (1 <= step)%Z -> In i (range 0 stop step) -> (0 <= i < stop)%Z.
Proof.
  intros Hstep Hin. apply In_nth_error in Hin. destruct Hin as [k Hk].
  rewrite range_nth in Hk by assumption.
  destruct (Z.ltb_spec (Z.of_nat k * step) stop); inversion Hk; nia.
Qed.

Lemma firstn_clip {A} (l : list A) a :
  firstn (Nat.min a (length l)) l = firstn a l.
Proof.
  destruct (Nat.le_ge_cases a (length l)).
  - now rewrite Nat.min_l.
  - rewrite Nat.min_r, !firstn_all2 by lia. reflexivity.
Qed.

(** [l[i:i + size]] for an offset inside the list and a size that is not
    negative: the [size] elements from offset [i] on, or those that are
    left. *)
Lemma slice_window {A} (l : list A) i size :
  (0 <= i <= Z.of_nat (length l))%Z -> (0 <= size)%Z ->
  slice l i (i + size) = firstn (Z.to_nat size) (skipn (Z.to_nat i) l).
Proof.
  intros Hi Hsize. unfold slice, clamp_index.
  destruct (Z.ltb_spec i 0); [lia|].
  destruct (Z.ltb_spec (i + size) 0); [lia|].
  rewrite (Z.min_l i) by lia.
  rewrite <- (firstn_clip (skipn (Z.to_nat i) l) (Z.to_nat size)).
  f_equal. rewrite length_skipn. lia.
Qed.

End SequenceFacts.

(** ** The chunker *)

Section ChunkerFacts.

Variable self : DocumentIngestor.

Lemma chunk_loop words starts :
  forall chunks,
    fold_left (chunk_body self words) starts chunks =
    chunks ++ flat_map (emitted self words) starts.
Proof.
  induction starts as [|i starts IH]; intros chunks; simpl.
  - now rewrite app_nil_r.
  - rewrite IH. unfold chunk_body, emitted.
    destruct (50 <? len (block_at self words i))%Z.
    + now rewrite <- app_assoc.
    + reflexivity.
Qed.

Lemma step_of_positive : (1 <= step_of self)%Z.
Proof. unfold step_of. lia. Qed.

End ChunkerFacts.

Section ChunkerTheorems.

Variable self : DocumentIngestor.

Lemma Forall_window (P : pystr -> Prop) words i :
  Forall P words -> Forall P (window self words i).
Proof.
  intros H. unfold window, slice.
  set (a := Z.to_nat _). set (b := Z.to_nat _).
  rewrite <- (firstn_skipn b words) in H. apply Forall_app in H.
  destruct H as [_ H].
  rewrite <- (firstn_skipn a (skipn b words)) in H. apply Forall_app in H.
  apply H.
Qed.

(** A chunk is its window's words with one space between them; splitting
    it gives the window back. *)
Lemma block_at_words text i :
  block_at self (split text) i = join [space] (window self (split text) i)
  /\ split (block_at self (split text) i) = window self (split text) i.
Proof.
  assert (Hw : Forall is_word (window self (split text) i))
    by (apply Forall_window, split_words).
  unfold block_at. rewrite strip_join by assumption.
  split; [reflexivity | now apply split_join].
Qed.

Lemma long_window_emitted text i :
  (26 <= length (window self (split text) i))%nat ->
  emitted self (split text) i = [block_at self (split text) i].
Proof.
  intros Hlen. unfold emitted.
  destruct (block_at_words text i) as [E _]. rewrite E.
  assert (Hw : Forall is_word (window self (split text) i))
    by (apply Forall_window, split_words).
  pose proof (join_length Hw) as Hj.
  destruct (Z.ltb_spec 50 (len (join [space] (window self (split text) i))))
    as [_|Hle]; [reflexivity|].
  unfold len in Hle. lia.
Qed.

(** C7. Every chunk that [chunk_text] produces is longer than 50
    characters, for every text and every chunk size and overlap; and the
    empty text gives no chunk (and no error: [chunk_text] is total). *)
Theorem chunk_length_invariant (text : pystr) :
  Forall (fun chunk => (50 < len chunk)%Z) (chunk_text self text)
  /\ chunk_text self [] = [].
Proof.
  split; [|reflexivity].
  unfold chunk_text. rewrite chunk_loop. simpl app.
  apply Forall_flat_map. apply Forall_forall. intros i _.
  unfold emitted.
  destruct (Z.ltb_spec 50 (len (block_at self (split text) i))).
  - constructor; [assumption | constructor].
  - constructor.
Qed.

(** C6. [chunk_text] splits the text on white space and looks at the
    windows of [chunk_size] words that start at the word offsets
    [0, step, 2*step, ...] below the number of words, with
    [step = max(1, chunk_size - overlap)]; each window gives its chunk if
    that is longer than 50 characters. With [chunk_size = 500] and
    [overlap = 100] on a text of 1200 words: the step is 400, the windows
    start at 0, 400 and 800, all three chunks are produced, and the first
    100 words of the chunk at 400 are the last 100 words of the chunk
    at 0. *)
Theorem chunker_window_placement (text : pystr) :
  let words := split text in
  let n := Z.of_nat (length words) in
  let step := Z.max 1 (chunk_size self - overlap self) in
  chunk_text self text = flat_map (emitted self words) (range 0 n step)
  /\ (forall k : nat,
        nth_error (range 0 n step) k =
        if (Z.of_nat k * step <? n)%Z
        then Some (Z.of_nat k * step)%Z else None)
  /\ (forall i, In i (range 0 n step) -> (0 <= chunk_size self)%Z ->
        window self words i =
        firstn (Z.to_nat (chunk_size self)) (skipn (Z.to_nat i) words))
  /\ (chunk_size self = 500%Z -> overlap self = 100%Z -> n = 1200%Z ->
        step = 400%Z
        /\ range 0 n step = [0; 400; 800]%Z
        /\ chunk_text self text =
           [block_at self words 0; block_at self words 400;
            block_at self words 800]
        /\ firstn 100 (split (block_at self words 400)) =
           skipn 400 (split (block_at self words 0))
        /\ length (firstn 100 (split (block_at self words 400))) = 100%nat).
Proof.
  intros words n step.
  assert (Hstep : (1 <= step)%Z) by (subst step; lia).
  assert (Hchunks :
    chunk_text self text = flat_map (emitted self words) (range 0 n step)).
  { unfold chunk_text. rewrite chunk_loop. reflexivity. }
  assert (Hwin : forall i, (0 <= i <= n)%Z -> (0 <= chunk_size self)%Z ->
            window self words i =
            firstn (Z.to_nat (chunk_size self)) (skipn (Z.to_nat i) words)).
  { intros i Hi Hsize. unfold window. now apply slice_window. }
  split; [exact Hchunks|].
  split; [intros k; now apply range_nth|].
  split.
  { intros i Hin Hsize. apply Hwin; [|assumption].
    apply range_bounds in Hin; [lia | assumption]. }
  intros Hsize Hover Hn.
  assert (Hstep400 : step = 400%Z) by (subst step; rewrite Hsize, Hover; reflexivity).
  assert (Hrange : range 0 n step = [0; 400; 800]%Z)
    by (rewrite Hstep400, Hn; vm_compute; reflexivity).
  assert (Hlen : length words = 1200%nat) by (subst n; lia).
  assert (Hw0 : window self words 0 = firstn 500 words).
  { rewrite Hwin by lia. rewrite Hsize. reflexivity. }
  assert (Hw400 : window self words 400 = firstn 500 (skipn 400 words)).
  { rewrite Hwin by lia. rewrite Hsize. reflexivity. }
  assert (Hw800 : window self words 800 = firstn 500 (skipn 800 words)).
  { rewrite Hwin by lia. rewrite Hsize. reflexivity. }
  split; [exact Hstep400|]. split; [exact Hrange|].
  split.
  { rewrite Hchunks, Hrange. simpl flat_map. rewrite app_nil_r.
    subst words.
    rewrite !long_window_emitted; [reflexivity| | |].
    - rewrite Hw800, length_firstn, length_skipn. lia.
    - rewrite Hw400, length_firstn, length_skipn. lia.
    - rewrite Hw0, length_firstn. lia. }
  subst words.
  destruct (block_at_words text 0) as [_ ->].
  destruct (block_at_words text 400) as [_ ->].
  rewrite Hw0, Hw400. split.
  - rewrite firstn_firstn. change (Nat.min 100 500) with 100%nat.
    rewrite (firstn_skipn_comm 100 400). reflexivity.
  - rewrite firstn_firstn, length_firstn, length_skipn. lia.
Qed.

Lemma sample_text_words : Z.of_nat (length (split sample_text)) = 1200%Z.
Proof. vm_compute. reflexivity. Qed.

End ChunkerTheorems.

Lemma chunker_window_placement_witness :
  let words := split sample_text in
  range 0 (Z.of_nat (length words)) 400 = [0; 400; 800]%Z
  /\ length (chunk_text default_ingestor sample_text) = 3%nat
  /\ firstn 100 (split (block_at default_ingestor words 400)) =
     skipn 400 (split (block_at default_ingestor words 0)).
Proof.
  destruct (chunker_window_placement default_ingestor sample_text)
    as (_ & _ & _ & H).
  destruct (H eq_refl eq_refl sample_text_words) as (_ & Hr & Hc & Hs & _).
  cbv zeta. split; [exact Hr|]. split; [|exact Hs].
  rewrite Hc. reflexivity.
Defined.

(** ** The vector store *)

Section StoreFacts.

Import VectorStore.

Variable vector : Type.
Variable encode : list pystr -> list vector.

Lemma enumerate_nth {A} (l : list A) :
  forall start j,
    nth_error (enumerate start l) j =
    option_map (fun a => ((start + Z.of_nat j)%Z, a)) (nth_error l j).
Proof.
  induction l as [|a l IH]; intros start j.
  - destruct j; reflexivity.
  - destruct j as [|j]; simpl.
    + now rewrite Z.add_0_r.
    + rewrite IH. destruct (nth_error l j); simpl; [|reflexivity].
      do 2 f_equal. lia.
Qed.

Lemma enumerate_length {A} (l : list A) :
  forall start, length (enumerate start l) = length l.
Proof. induction l; intros; simpl; [reflexivity | now rewrite IHl]. Qed.

Lemma append_metadata_app chunks src metas :
  append_metadata metas chunks src = metas ++ batch_metadata chunks src.
Proof.
  unfold append_metadata, batch_metadata.
  generalize (enumerate 0 chunks) as l. intros l. revert metas.
  induction l as [|it l IH]; intros metas; simpl.
  - now rewrite app_nil_r.
  - rewrite IH, <- app_assoc. reflexivity.
Qed.

Lemma batch_metadata_length chunks src :
  length (batch_metadata chunks src) = length chunks.
Proof.
  unfold batch_metadata. now rewrite length_map, enumerate_length.
Qed.

Lemma batch_metadata_nth chunks src j :
  nth_error (batch_metadata chunks src) j =
  option_map
    (fun t => {| text := t; source := src; chunk_id := Z.of_nat j |})
    (nth_error chunks j).
Proof.
  unfold batch_metadata. rewrite nth_error_map, enumerate_nth.
  destruct (nth_error chunks j); reflexivity.
Qed.

(** What an accepted call does to the store and to the files. *)
Lemma add_documents_accepted self disk chunks src :
  already_indexed self src = false -> chunks <> [] ->
  add_documents encode self disk chunks src =
  ({| index := index self ++ encode chunks;
      metadata := metadata self ++ batch_metadata chunks src |},
   {| index_file := Some (index self ++ encode chunks);
      metadata_file := Some (metadata self ++ batch_metadata chunks src) |}).
Proof.
  intros Hnew Hne. unfold add_documents. rewrite Hnew.
  destruct chunks; [contradiction|].
  unfold save. cbn [index metadata index_file metadata_file].
  now rewrite append_metadata_app.
Qed.

Lemma add_documents_cases self disk chunks src :
  add_documents encode self disk chunks src = (self, disk)
  \/ (already_indexed self src = false /\ chunks <> []).
Proof.
  unfold add_documents. destruct (already_indexed self src); [now left|].
  destruct chunks; [now left | right]. split; [reflexivity | discriminate].
Qed.

(** The duplicate guard: a source that is among the stored metadata makes
    the call return at once. *)
Lemma add_documents_duplicate self disk chunks src :
  In src (map source (metadata self)) ->
  add_documents encode self disk chunks src = (self, disk).
Proof.
  intros Hin. unfold add_documents.
  replace (already_indexed self src) with true; [reflexivity|].
  symmetry. unfold already_indexed. apply existsb_exists.
  apply in_map_iff in Hin. destruct Hin as [m [Hm Hin]].
  exists m. split; [assumption|]. now apply eqb_eq.
Qed.

Lemma Forall2_pointwise {A B} (R : A -> B -> Prop) (l1 : list A) :
  forall l2 : list B,
    length l1 = length l2 ->
    (forall j a b, nth_error l1 j = Some a -> nth_error l2 j = Some b ->
                   R a b) ->
    Forall2 R l1 l2.
Proof.
  induction l1 as [|a l1 IH]; intros [|b l2] Hlen H; try discriminate.
  - constructor.
  - constructor.
    + apply (H 0%nat); reflexivity.
    + apply IH; [simpl in Hlen; lia|].
      intros j. apply (H (S j)).
Qed.

Lemma Forall2_lookup {A B} (R : A -> B -> Prop) (l1 : list A) (l2 : list B) :
  Forall2 R l1 l2 ->
  forall i, (i < length l1)%nat ->
    exists a b, nth_error l1 i = Some a /\ nth_error l2 i = Some b /\ R a b.
Proof.
  induction 1 as [|a b l1 l2 Hab H IH]; intros i Hi; simpl in Hi; [lia|].
  destruct i as [|i].
  - exists a, b. auto.
  - apply IH. lia.
Qed.

End StoreFacts.

Section StoreTheorems.

Import VectorStore.

Variable vector : Type.
Variable encode : list pystr -> list vector.

(** The embedding model returns one row for each text of a batch. *)
Hypothesis encode_length : forall texts, length (encode texts) = length texts.

Lemma batch_corresponds calls chunks src :
  In (chunks, src) calls ->
  Forall2 (corresponds encode calls)
          (encode chunks) (batch_metadata chunks src).
Proof.
  intros Hin. apply Forall2_pointwise.
  - now rewrite encode_length, batch_metadata_length.
  - intros j v m Hv Hm. rewrite batch_metadata_nth in Hm.
    destruct (nth_error chunks j) as [t|] eqn:Ht; [|discriminate].
    inversion Hm; subst. exists chunks, src, j, t. auto.
Qed.

Lemma add_documents_paired all self disk chunks src :
  In (chunks, src) all ->
  paired encode all (self, disk) ->
  paired encode all (add_documents encode self disk chunks src).
Proof.
  intros Hin Hinv.
  destruct (add_documents_cases encode self disk chunks src)
    as [-> | [Hnew Hne]]; [assumption|].
  rewrite add_documents_accepted by assumption.
  destruct Hinv as [Hp _]. split; cbn [fst snd index metadata].
  - apply Forall2_app; [assumption | now apply batch_corresponds].
  - now right.
Qed.

Lemma add_all_paired all calls :
  forall w, incl calls all -> paired encode all w ->
            paired encode all (add_all encode calls w).
Proof.
  induction calls as [|[chunks src] calls IH]; intros [self disk] Hincl Hinv.
  - exact Hinv.
  - cbn [add_all fold_left fst snd].
    destruct (add_documents encode self disk chunks src) as [self' disk'] eqn:E.
    apply IH.
    + intros c Hc. apply Hincl. now right.
    + rewrite <- E. apply add_documents_paired; [|assumption].
      apply Hincl. now left.
Qed.

(** C1. From an empty index, after any sequence of [add_documents]
    calls, the store has as many metadata records as vectors, and at
    every position the vector and the record come from the same chunk of
    the same accepted batch; the files, once written, hold the same
    vectors and records. Each single call leaves the store alone or
    appends the vectors of its batch and the records of its batch, as
    many of one as of the other and in the order of the chunks, after
    what was there. The empty store is what opening without files
    gives. *)
Theorem alignment_invariant (calls : list (list pystr * pystr)) :
  let w := add_all encode calls (fresh vector, no_files vector) in
  length (index (fst w)) = length (metadata (fst w))
  /\ (forall i, (i < length (index (fst w)))%nat ->
        exists v m,
          nth_error (index (fst w)) i = Some v
          /\ nth_error (metadata (fst w)) i = Some m
          /\ corresponds encode calls v m)
  /\ (snd w = no_files vector
      \/ snd w = {| index_file := Some (index (fst w));
                    metadata_file := Some (metadata (fst w)) |})
  /\ (forall self disk chunks src,
        let self' := fst (add_documents encode self disk chunks src) in
        self' = self
        \/ (index self' = index self ++ encode chunks
            /\ metadata self' = metadata self ++ batch_metadata chunks src
            /\ length (encode chunks) = length (batch_metadata chunks src)))
  /\ init (no_files vector) = Ok (fresh vector).
Proof.
  intros w.
  assert (Hinv : paired encode calls w).
  { apply add_all_paired; [apply incl_refl|].
    split; [constructor | now left]. }
  destruct Hinv as [Hp Hd].
  split; [exact (Forall2_length Hp)|].
  split; [exact (Forall2_lookup Hp)|].
  split; [exact Hd|].
  split; [|reflexivity].
  intros self disk chunks src.
  destruct (add_documents_cases encode self disk chunks src)
    as [E | [Hnew Hne]].
  - cbv zeta. rewrite E. now left.
  - cbv zeta. rewrite add_documents_accepted by assumption.
    right. cbn [fst index metadata].
    now rewrite encode_length, batch_metadata_length.
Qed.

(** C4. A call of [add_documents] for a source that is already among the
    stored metadata changes nothing: the store (vectors and metadata),
    the files and the statistics, [total_documents] among them, are what
    they were. The call returns normally. *)
Theorem dedup_is_noop (self : FAISSVectorStore vector) (disk : Disk vector)
    (chunks : list pystr) (src : pystr) :
  In src (map source (metadata self)) ->
  add_documents encode self disk chunks src = (self, disk)
  /\ get_stats (fst (add_documents encode self disk chunks src)) =
     get_stats self
  /\ total_documents
       (get_stats (fst (add_documents encode self disk chunks src))) =
     total_documents (get_stats self).
Proof.
  intros Hin. rewrite (@add_documents_duplicate _ encode self disk chunks src Hin).
  auto.
Qed.

(** C2, as the code has it. Opening a store never raises. When both
    files exist the store holds exactly what they hold, whether or not
    the number of vectors equals the number of metadata records; when one
    of them is missing the store starts empty. *)
Theorem load_is_unchecked (disk : Disk vector) :
  exists self,
    init disk = Ok self
    /\ (forall rows metas,
          index_file disk = Some rows -> metadata_file disk = Some metas ->
          self = {| index := rows; metadata := metas |})
    /\ (index_file disk = None \/ metadata_file disk = None ->
        self = fresh vector).
Proof.
  unfold init.
  destruct (index_file disk) as [rows|], (metadata_file disk) as [metas|];
    eexists; (split; [reflexivity|]); split;
    try (intros ? ? [=] [=]; subst; reflexivity);
    try (intros [[=]|[=]]); try reflexivity; try discriminate.
Qed.

End StoreTheorems.

(** ** The flat index: exact nearest neighbours *)

Section FaissFacts.

Variable vector : Type.
Variable l2sqr : vector -> vector -> float.

Lemma insert_by_distance_perm p l :
  Permutation (p :: l) (Faiss.insert_by_distance p l).
Proof.
  induction l as [|h t IH]; simpl.
  - reflexivity.
  - destruct (Qle_bool (fst p) (fst h)).
    + reflexivity.
    + rewrite perm_swap. now constructor.
Qed.

Lemma insert_by_distance_sorted p l :
  StronglySorted by_distance l ->
  StronglySorted by_distance (Faiss.insert_by_distance p l).
Proof.
  induction 1 as [|h t Ht IH Hh]; simpl.
  - constructor; constructor.
  - destruct (Qle_bool (fst p) (fst h)) eqn:E.
    + apply Qle_bool_iff in E.
      constructor; [constructor; assumption|].
      constructor; [exact E|].
      revert Hh. apply Forall_impl. intros x Hx.
      unfold by_distance in *. now apply Qle_trans with (fst h).
    + assert (Hhp : by_distance h p).
      { unfold by_distance. apply Qlt_le_weak, Qnot_le_lt.
        intros H. apply Qle_bool_iff in H. congruence. }
      constructor; [assumption|].
      apply (Permutation_Forall (insert_by_distance_perm p t)).
      constructor; assumption.
Qed.

Lemma sort_by_distance_perm l : Permutation l (Faiss.sort_by_distance l).
Proof.
  induction l as [|p l IH]; simpl; [constructor|].
  rewrite <- insert_by_distance_perm. now constructor.
Qed.

Lemma sort_by_distance_sorted l :
  StronglySorted by_distance (Faiss.sort_by_distance l).
Proof.
  induction l as [|p l IH]; simpl; [constructor|].
  now apply insert_by_distance_sorted.
Qed.

Lemma sorted_app_inv {A} (R : A -> A -> Prop) (l1 l2 : list A) :
  StronglySorted R (l1 ++ l2) ->
  StronglySorted R l1 /\ Forall (fun a => Forall (R a) l2) l1.
Proof.
  induction l1 as [|a l1 IH]; simpl; intros H.
  - split; constructor.
  - apply StronglySorted_inv in H. destruct H as [Hs Ha].
    apply IH in Hs. destruct Hs as [Hs Hl].
    apply Forall_app in Ha. destruct Ha as [Ha1 Ha2].
    split; constructor; assumption.
Qed.

Lemma scan_nth xb q j :
  nth_error (Faiss.scan l2sqr xb q) j =
  option_map (fun v => (l2sqr q v, Z.of_nat j)) (nth_error xb j).
Proof.
  unfold Faiss.scan. rewrite nth_error_map, enumerate_nth.
  destruct (nth_error xb j); reflexivity.
Qed.

Lemma scan_length xb q : length (Faiss.scan l2sqr xb q) = length xb.
Proof. unfold Faiss.scan. now rewrite length_map, enumerate_length. Qed.

Lemma scan_labels xb q :
  map snd (Faiss.scan l2sqr xb q) = map Z.of_nat (seq 0 (length xb)).
Proof.
  apply nth_error_ext. intros j.
  rewrite !nth_error_map, scan_nth.
  destruct (nth_error xb j) eqn:E; simpl.
  - assert (Hj : (j < length xb)%nat)
      by (apply nth_error_Some; congruence).
    rewrite nth_error_seq. destruct (Nat.ltb_spec j (length xb)); [|lia].
    reflexivity.
  - apply nth_error_None in E.
    rewrite nth_error_seq. destruct (Nat.ltb_spec j (length xb)); [lia|].
    reflexivity.
Qed.

Lemma scan_labels_nodup xb q : NoDup (map snd (Faiss.scan l2sqr xb q)).
Proof.
  rewrite scan_labels. apply NoDup_map_NoDup_ForallPairs.
  - intros a b _ _. apply Nat2Z.inj.
  - apply seq_NoDup.
Qed.

(** With [1 <= k <= ntotal] a row of [knn] needs no padding: it is the
    first [k] entries of the sorted scan. *)
Lemma knn_prefix xb k q :
  (1 <= k <= Z.of_nat (length xb))%Z ->
  Faiss.knn l2sqr xb k q =
  firstn (Z.to_nat k) (Faiss.sort_by_distance (Faiss.scan l2sqr xb q)).
Proof.
  intros Hk. unfold Faiss.knn.
  assert (Hlen : length (Faiss.sort_by_distance (Faiss.scan l2sqr xb q))
                 = length xb).
  { rewrite <- (Permutation_length (sort_by_distance_perm _)).
    apply scan_length. }
  rewrite length_firstn, Hlen.
  replace (Z.to_nat k - Nat.min (Z.to_nat k) (length xb))%nat with 0%nat
    by lia.
  apply app_nil_r.
Qed.

Lemma knn_spec xb k q :
  (1 <= k <= Z.of_nat (length xb))%Z ->
  let row := Faiss.knn l2sqr xb k q in
  Z.of_nat (length row) = k
  /\ StronglySorted by_distance row
  /\ NoDup (map snd row)
  /\ (forall p, In p row -> In p (Faiss.scan l2sqr xb q))
  /\ (forall p, In p (Faiss.scan l2sqr xb q) -> ~ In (snd p) (map snd row) ->
                Forall (fun r => by_distance r p) row).
Proof.
  intros Hk row. subst row. rewrite knn_prefix by assumption.
  set (sorted := Faiss.sort_by_distance (Faiss.scan l2sqr xb q)).
  pose proof (sort_by_distance_perm (Faiss.scan l2sqr xb q)) as Hperm.
  fold sorted in Hperm.
  pose proof (sort_by_distance_sorted (Faiss.scan l2sqr xb q)) as Hsorted.
  fold sorted in Hsorted.
  assert (Hlen : length sorted = length xb).
  { rewrite <- (Permutation_length Hperm). apply scan_length. }
  assert (Hsplit : sorted = firstn (Z.to_nat k) sorted
                            ++ skipn (Z.to_nat k) sorted)
    by (symmetry; apply firstn_skipn).
  set (near := firstn (Z.to_nat k) sorted) in *.
  set (far := skipn (Z.to_nat k) sorted) in *.
  rewrite Hsplit in Hsorted. apply sorted_app_inv in Hsorted.
  destruct Hsorted as [Hnear Hfar].
  assert (Hnodup : NoDup (map snd near ++ map snd far)).
  { rewrite <- map_app, <- Hsplit.
    apply (Permutation_NoDup (Permutation_map snd Hperm)).
    apply scan_labels_nodup. }
  split; [subst near; rewrite length_firstn; lia|].
  split; [exact Hnear|].
  split; [exact (NoDup_app_remove_r _ _ Hnodup)|].
  split.
  - intros p Hp. apply (Permutation_in _ (Permutation_sym Hperm)).
    rewrite Hsplit. apply in_or_app. now left.
  - intros p Hp Hnot.
    apply (Permutation_in _ Hperm) in Hp. rewrite Hsplit in Hp.
    apply in_app_or in Hp. destruct Hp as [Hp|Hp].
    + exfalso. apply Hnot. now apply in_map.
    + revert Hfar. apply Forall_impl. intros r Hr.
      rewrite Forall_forall in Hr. now apply Hr.
Qed.

End FaissFacts.

Section SearchFacts.

Import VectorStore.

Variable vector : Type.
Variable encode : list pystr -> list vector.
Variable l2sqr : vector -> vector -> float.

Hypothesis encode_length : forall texts, length (encode texts) = length texts.

Lemma combine_fst_snd {A B} (l : list (A * B)) :
  combine (map fst l) (map snd l) = l.
Proof.
  induction l as [|[a b] l IH]; simpl; [reflexivity | now rewrite IH].
Qed.

Lemma collect_app (self : FAISSVectorStore vector) out di :
  collect self out di = out ++ collect self [] di.
Proof.
  unfold collect. destruct di as [dist idx].
  destruct ((0 <=? idx)%Z && (idx <? Z.of_nat (length (metadata self)))%Z).
  - destruct (nth_error (metadata self) (Z.to_nat idx));
      [reflexivity | now rewrite app_nil_r].
  - now rewrite app_nil_r.
Qed.

Lemma collect_fold (self : FAISSVectorStore vector) row :
  forall out,
    fold_left (collect self) row out = out ++ flat_map (collect self []) row.
Proof.
  induction row as [|di row IH]; intros out; simpl.
  - now rewrite app_nil_r.
  - rewrite IH, (collect_app self out di), <- app_assoc. reflexivity.
Qed.

Lemma collect_at_most (self : FAISSVectorStore vector) row :
  (length (flat_map (collect self []) row) <= length row)%nat.
Proof.
  induction row as [|[dist idx] row IH]; cbn [flat_map length]; [lia|].
  rewrite length_app.
  assert (length (collect self [] (dist, idx)) <= 1)%nat; [|lia].
  unfold collect.
  destruct ((0 <=? idx)%Z && (idx <? Z.of_nat (length (metadata self)))%Z);
    [|simpl; lia].
  destruct (nth_error (metadata self) (Z.to_nat idx)); simpl; lia.
Qed.

Lemma query_vector query : exists qv, encode [query] = [qv].
Proof.
  pose proof (encode_length [query]) as H.
  destruct (encode [query]) as [|qv [|? ?]]; try discriminate.
  now exists qv.
Qed.

Lemma search_empty (self : FAISSVectorStore vector) query top_k :
  ntotal self = 0%Z -> search encode l2sqr self query top_k = Ok [].
Proof. intros H. unfold search. now rewrite H. Qed.

(** On a store that is not empty and for [top_k >= 1], [search] is the
    loop over the row of the library's answer for the one query. *)
Lemma search_row (self : FAISSVectorStore vector) query top_k qv :
  encode [query] = [qv] -> ntotal self <> 0%Z -> (1 <= top_k)%Z ->
  search encode l2sqr self query top_k =
  Ok (flat_map (collect self [])
        (Faiss.knn l2sqr (index self) (Z.min top_k (ntotal self)) qv)).
Proof.
  intros Hq Hn Hk. unfold search.
  destruct (Z.eqb_spec (ntotal self) 0); [contradiction|].
  rewrite Hq. unfold Faiss.search.
  assert (Hpos : (0 < ntotal self)%Z) by (unfold ntotal in *; lia).
  destruct (Z.leb_spec (Z.min top_k (ntotal self)) 0); [lia|].
  cbn [bind map fst snd first_row].
  now rewrite combine_fst_snd, collect_fold.
Qed.

Lemma collect_aligned (self : FAISSVectorStore vector) qv row :
  length (metadata self) = length (index self) ->
  (forall p, In p row -> In p (Faiss.scan l2sqr (index self) qv)) ->
  exists results labels,
    flat_map (collect self []) row = results
    /\ map Z.of_nat labels = map snd row
    /\ map snd results = map fst row
    /\ Forall2 (hit l2sqr self qv) labels results.
Proof.
  intros Hlen. induction row as [|[dist idx] row IH]; intros Hin.
  - exists [], []. repeat split; constructor.
  - destruct IH as (results & labels & Hr & Hl & Hd & Hh).
    { intros p Hp. apply Hin. now right. }
    destruct (In_nth_error _ _ (Hin (dist, idx) (or_introl eq_refl)))
      as [j Hj].
    rewrite scan_nth in Hj.
    destruct (nth_error (index self) j) as [v|] eqn:Hv; [|discriminate].
    inversion Hj; subst dist idx; clear Hj.
    assert (Hjlt : (j < length (metadata self))%nat).
    { rewrite Hlen. apply nth_error_Some. congruence. }
    destruct (nth_error (metadata self) j) as [m|] eqn:Hm;
      [|apply nth_error_None in Hm; lia].
    exists ((m, l2sqr qv v) :: results), (j :: labels).
    split; [|split; [|split]].
    + cbn [flat_map]. rewrite Hr. unfold collect.
      destruct (Z.leb_spec 0 (Z.of_nat j)); [|lia].
      destruct (Z.ltb_spec (Z.of_nat j) (Z.of_nat (length (metadata self))));
        [|lia].
      cbn [andb]. rewrite Nat2Z.id, Hm. reflexivity.
    + simpl. now rewrite Hl.
    + simpl. now rewrite Hd.
    + constructor; [|assumption].
      split; [exact Hm|]. exists v. auto.
Qed.

Lemma sorted_distances row :
  StronglySorted by_distance row -> StronglySorted Qle (map fst row).
Proof.
  induction 1 as [|p row Hs IH Hp]; simpl; constructor; [assumption|].
  apply Forall_map. exact Hp.
Qed.

End SearchFacts.

Section SearchTheorems.

Import VectorStore.

Variable vector : Type.
Variable encode : list pystr -> list vector.
Variable l2sqr : vector -> vector -> float.

Hypothesis encode_length : forall texts, length (encode texts) = length texts.

(** C5, as the code has it. For [top_k >= 1], on a store with as many
    metadata records as vectors (as [add_documents] builds it), [search]
    returns exactly [min(top_k, ntotal)] results: each is the record and
    the distance of a stored vector, no vector twice, by ascending
    distance, and no vector left out is nearer than one returned; so 3
    results for [top_k = 10] on 3 vectors. On any store it returns at most
    [min(top_k, ntotal)] results, and on an empty index the empty list for
    every [top_k]. *)
Theorem search_top_k (self : FAISSVectorStore vector) (query : pystr)
    (top_k : Z) :
  (ntotal self = 0%Z -> search encode l2sqr self query top_k = Ok [])
  /\ ((1 <= top_k)%Z ->
      exists results,
        search encode l2sqr self query top_k = Ok results
        /\ (Z.of_nat (length results) <= Z.min top_k (ntotal self))%Z)
  /\ ((1 <= top_k)%Z -> length (metadata self) = length (index self) ->
      exists qv results labels,
        encode [query] = [qv]
        /\ search encode l2sqr self query top_k = Ok results
        /\ Z.of_nat (length results) = Z.min top_k (ntotal self)
        /\ (ntotal self = 3%Z -> top_k = 10%Z -> length results = 3%nat)
        /\ Forall2 (hit l2sqr self qv) labels results
        /\ NoDup labels
        /\ StronglySorted Qle (map snd results)
        /\ (forall j v,
              nth_error (index self) j = Some v -> ~ In j labels ->
              Forall (fun r => (snd r <= l2sqr qv v)%Q) results)).
Proof.
  destruct (query_vector encode encode_length query) as [qv Hq].
  split; [apply search_empty|].
  destruct (Z.eq_dec (ntotal self) 0) as [Hz|Hnz].
  - (* empty index *)
    split.
    + intros Hk. exists []. rewrite search_empty by assumption.
      split; [reflexivity | simpl; lia].
    + intros Hk Hlen. exists qv, [], [].
      rewrite search_empty by assumption.
      split; [exact Hq|]. split; [reflexivity|].
      split; [simpl; lia|]. split; [lia|].
      repeat split; constructor.
  - assert (Hpos : (0 < ntotal self)%Z) by (unfold ntotal in *; lia).
    split.
    + intros Hk. eexists. rewrite (@search_row _ encode l2sqr self query top_k qv Hq Hnz Hk).
      split; [reflexivity|].
      pose proof (collect_at_most self
        (Faiss.knn l2sqr (index self) (Z.min top_k (ntotal self)) qv)) as Hle.
      destruct (@knn_spec _ l2sqr (index self) (Z.min top_k (ntotal self)) qv)
        as (Hrow & _); [unfold ntotal in *; lia|].
      lia.
    + intros Hk Hlen.
      destruct (@knn_spec _ l2sqr (index self) (Z.min top_k (ntotal self)) qv)
        as (Hrow & Hsorted & Hnodup & Hscan & Hnear);
        [unfold ntotal in *; lia|].
      destruct (collect_aligned l2sqr self qv _ Hlen Hscan)
        as (results & labels & Hr & Hl & Hd & Hh).
      assert (Hcount : Z.of_nat (length results) = Z.min top_k (ntotal self)).
      { rewrite <- Hrow, <- (length_map snd results), Hd, length_map.
        reflexivity. }
      exists qv, results, labels.
      split; [exact Hq|].
      split.
      { rewrite (@search_row _ encode l2sqr self query top_k qv Hq Hnz Hk).
        now rewrite Hr. }
      split; [exact Hcount|].
      split; [intros H3 H10; rewrite H3, H10 in Hcount; simpl in Hcount; lia|].
      split; [exact Hh|].
      split; [apply (NoDup_map_inv Z.of_nat); now rewrite Hl|].
      split; [rewrite Hd; now apply sorted_distances|].
      intros j v Hv Hnot.
      assert (Hp : In (l2sqr qv v, Z.of_nat j)
                      (Faiss.scan l2sqr (index self) qv)).
      { apply (nth_error_In _ j). rewrite scan_nth, Hv. reflexivity. }
      apply Hnear in Hp.
      * apply Forall_forall. intros r Hin.
        apply (in_map snd) in Hin. unfold float in *. rewrite Hd in Hin.
        apply in_map_iff in Hin. destruct Hin as [p [Hfst Hin]].
        rewrite Forall_forall in Hp. specialize (Hp p Hin).
        unfold by_distance in Hp. simpl in Hp. now rewrite <- Hfst.
      * cbn [snd]. rewrite <- Hl. intros Hin.
        apply in_map_iff in Hin. destruct Hin as [x [Hx Hin]].
        apply Nat2Z.inj in Hx. subst x. contradiction.
Qed.

End SearchTheorems.

(** ** The store on concrete inputs *)

Lemma length_encode_length texts :
  length (length_encode texts) = length texts.
Proof. apply length_map. Qed.

Lemma alignment_invariant_witness :
  let w := add_all length_encode sample_calls
             (fresh Q, VectorStore.no_files Q) in
  length (VectorStore.index (fst w)) = length (VectorStore.metadata (fst w))
  /\ length (VectorStore.index (fst w)) = 5%nat.
Proof.
  split.
  - apply (@alignment_invariant Q length_encode length_encode_length
             sample_calls).
  - reflexivity.
Defined.

Lemma dedup_is_noop_witness :
  VectorStore.add_documents length_encode sample_store
    (VectorStore.no_files Q) [lit "zz"] (lit "A.txt")
  = (sample_store, VectorStore.no_files Q).
Proof.
  apply (@dedup_is_noop Q length_encode sample_store
           (VectorStore.no_files Q) [lit "zz"] (lit "A.txt")).
  simpl. left. reflexivity.
Defined.

(** C2 fails on the code: files that contradict each other are opened
    without any error. With three vectors and one record the store is
    loaded as it is; with the metadata file alone a new empty store is
    made. *)
Lemma load_consistency_counterexample :
  files_disagree torn_files
  /\ VectorStore.init torn_files = Ok torn_store
  /\ length (VectorStore.index torn_store)
     <> length (VectorStore.metadata torn_store)
  /\ files_disagree orphan_files
  /\ VectorStore.init orphan_files = Ok (fresh Q).
Proof.
  repeat split; try exact I; simpl; try discriminate.
Qed.

Lemma load_is_unchecked_witness :
  exists self,
    VectorStore.init torn_files = Ok self /\ self = torn_store.
Proof.
  destruct (load_is_unchecked torn_files) as (self & Hinit & Hboth & _).
  exists self. split; [exact Hinit|].
  apply Hboth; reflexivity.
Defined.

(** C5 fails on a store whose metadata list is shorter than its index:
    of the three nearest vectors asked for, only the one that has a
    record is returned. *)
Lemma search_count_counterexample :
  VectorStore.init torn_files = Ok torn_store
  /\ VectorStore.search length_encode square_distance torn_store
       (lit "xx") 3
     = Ok [(sample_record, 1)]
  /\ Z.min 3 (VectorStore.ntotal torn_store) = 3%Z.
Proof. repeat split. Qed.

Lemma search_top_k_witness :
  exists results,
    VectorStore.search length_encode square_distance sample_store
      (lit "xxxxx") 10 = Ok results
    /\ length results = 3%nat.
Proof.
  destruct (@search_top_k Q length_encode square_distance
              length_encode_length sample_store (lit "xxxxx") 10)
    as (_ & _ & H).
  destruct H as (qv & results & labels & _ & Hs & _ & H3 & _);
    [lia | reflexivity |].
  exists results. split; [exact Hs|].
  apply H3; reflexivity.
Defined.

(** ** Binary64 arithmetic and the relevance score *)

Section FloatFacts.

Local Open Scope Q_scope.


Lemma pow2_pos e : 0 < pow2 e.
Proof. unfold pow2. apply Qpower_0_lt. reflexivity. Qed.

Lemma pow2_add a b : pow2 (a + b) == pow2 a * pow2 b.
Proof. unfold pow2. apply Qpower_plus. discriminate. Qed.

Lemma pow2_succ a : pow2 (a + 1) == 2 * pow2 a.
Proof. rewrite pow2_add. change (pow2 1) with 2. ring. Qed.

Lemma pow2_le a b : (a <= b)%Z -> pow2 a <= pow2 b.
Proof. intros H. unfold pow2. apply Qpower_le_compat_l; [assumption | discriminate]. Qed.

Lemma pow2_lt_inv a b : pow2 a < pow2 b -> (a < b)%Z.
Proof. intros H. unfold pow2 in H. apply Qpower_lt_compat_l_inv in H; [assumption | reflexivity]. Qed.

Lemma pow2_nonneg_Z z : (0 <= z)%Z -> pow2 z == inject_Z (2 ^ z).
Proof. intros H. unfold pow2. now rewrite Zpower_Qpower. Qed.

Lemma rne_near x : x - (1#2) <= inject_Z (rne x) <= x + (1#2).
Proof.
  unfold rne.
  pose proof (Qfloor_le x) as Hlo. pose proof (Qlt_floor x) as Hhi.
  rewrite inject_Z_plus in Hhi. change (inject_Z 1) with 1 in Hhi.
  destruct (Qcompare_spec (x - inject_Z (Qfloor x)) (1#2)) as [E|L|G].
  - destruct (Z.even (Qfloor x)); [|rewrite inject_Z_plus; change (inject_Z 1) with 1]; lra.
  - lra.
  - rewrite inject_Z_plus; change (inject_Z 1) with 1. lra.
Qed.

Lemma rne_int z : rne (inject_Z z) = z.
Proof.
  unfold rne. rewrite Qfloor_Z.
  assert (E : inject_Z z - inject_Z z == 0) by ring.
  rewrite E. reflexivity.
Qed.

Lemma rne_mono x y : x <= y -> (rne x <= rne y)%Z.
Proof.
  intros Hxy.
  pose proof (Qfloor_resp_le _ _ Hxy) as Hf.
  pose proof (Qfloor_le x) as Hxl. pose proof (Qlt_floor x) as Hxh.
  pose proof (Qfloor_le y) as Hyl. pose proof (Qlt_floor y) as Hyh.
  rewrite inject_Z_plus in Hxh, Hyh. change (inject_Z 1) with 1 in Hxh, Hyh.
  unfold rne.
  destruct (Z.eq_dec (Qfloor x) (Qfloor y)) as [E|N].
  - rewrite <- E in *.
    destruct (Qcompare_spec (x - inject_Z (Qfloor x)) (1#2));
    destruct (Qcompare_spec (y - inject_Z (Qfloor x)) (1#2));
    try destruct (Z.even (Qfloor x)); try lia; lra.
  - assert (Qfloor x + 1 <= Qfloor y)%Z by lia.
    destruct (Qcompare_spec (x - inject_Z (Qfloor x)) (1#2));
    destruct (Qcompare_spec (y - inject_Z (Qfloor y)) (1#2));
    try destruct (Z.even (Qfloor x)); try destruct (Z.even (Qfloor y)); lia.
Qed.

Lemma rne_ge z x : inject_Z z <= x -> (z <= rne x)%Z.
Proof. intros H. rewrite <- (rne_int z). now apply rne_mono. Qed.

Lemma rne_le z x : x <= inject_Z z -> (rne x <= z)%Z.
Proof. intros H. rewrite <- (rne_int z). now apply rne_mono. Qed.

(** Above the middle between [z] and [z + 1] the nearest integer is at
    least [z + 1]. *)
Lemma rne_above_half z x : inject_Z z + (1#2) < x -> (z + 1 <= rne x)%Z.
Proof.
  intros H. pose proof (rne_near x) as [Hlo _].
  assert (Hlt : inject_Z z < inject_Z (rne x)) by lra.
  rewrite <- Zlt_Qlt in Hlt. lia.
Qed.

Lemma ilog2_spec x : 0 < x -> pow2 (ilog2 x) <= x < pow2 (ilog2 x + 1).
Proof.
  intros Hx. destruct x as [n d]. unfold ilog2. cbn [Qnum Qden].
  assert (Hn : (0 < n)%Z).
  { unfold Qlt in Hx. simpl in Hx. lia. }
  set (ln := Z.log2 n). set (ld := Z.log2 (Zpos d)).
  destruct (Z.log2_spec n Hn) as [Hn1 Hn2]. fold ln in Hn1, Hn2.
  destruct (Z.log2_spec (Zpos d) eq_refl) as [Hd1 Hd2]. fold ld in Hd1, Hd2.
  assert (Hln : (0 <= ln)%Z) by apply Z.log2_nonneg.
  assert (Hld : (0 <= ld)%Z) by apply Z.log2_nonneg.
  assert (Ex : n # d == inject_Z n / inject_Z (Zpos d)) by apply Qmake_Qdiv.
  assert (Hdpos : 0 < inject_Z (Zpos d)) by reflexivity.
  assert (Qn1 : pow2 ln <= inject_Z n)
    by (rewrite pow2_nonneg_Z by assumption; now rewrite <- Zle_Qle).
  assert (Qn2 : inject_Z n < pow2 (ln + 1))
    by (rewrite pow2_nonneg_Z by lia; rewrite <- Zlt_Qlt;
        now rewrite <- Z.add_1_r in Hn2).
  assert (Qd1 : pow2 ld <= inject_Z (Zpos d))
    by (rewrite pow2_nonneg_Z by assumption; now rewrite <- Zle_Qle).
  assert (Qd2 : inject_Z (Zpos d) < pow2 (ld + 1))
    by (rewrite pow2_nonneg_Z by lia; rewrite <- Zlt_Qlt;
        now rewrite <- Z.add_1_r in Hd2).
  assert (Hup : n # d < pow2 (ln - ld + 1)).
  { rewrite Ex. apply Qlt_shift_div_r; [assumption|].
    apply Qlt_le_trans with (pow2 (ln + 1)); [assumption|].
    replace (ln + 1)%Z with ((ln - ld + 1) + ld)%Z by lia.
    rewrite pow2_add. apply Qmult_le_l; [apply pow2_pos | assumption]. }
  assert (Hdown : pow2 (ln - ld - 1) <= n # d).
  { rewrite Ex. apply Qle_shift_div_l; [assumption|].
    apply Qle_trans with (pow2 ln); [|assumption].
    replace ln with ((ln - ld - 1) + (ld + 1))%Z at 2 by lia.
    rewrite pow2_add. apply Qmult_le_l; [apply pow2_pos|].
    now apply Qlt_le_weak. }
  destruct (Qle_bool (pow2 (ln - ld)) (n # d)) eqn:E.
  - apply Qle_bool_iff in E. split; assumption.
  - split; [assumption|].
    replace (ln - ld - 1 + 1)%Z with (ln - ld)%Z by lia.
    apply Qnot_le_lt. intros H. apply Qle_bool_iff in H. congruence.
Qed.

Lemma ilog2_unique x e : pow2 e <= x < pow2 (e + 1) -> ilog2 x = e.
Proof.
  intros [H1 H2].
  assert (Hx : 0 < x) by (apply Qlt_le_trans with (pow2 e); [apply pow2_pos | assumption]).
  destruct (@ilog2_spec x Hx) as [H3 H4].
  assert (e < ilog2 x + 1)%Z by (apply pow2_lt_inv; lra).
  assert (ilog2 x < e + 1)%Z by (apply pow2_lt_inv; lra).
  lia.
Qed.

Lemma ilog2_mono x y : 0 < x -> x <= y -> (ilog2 x <= ilog2 y)%Z.
Proof.
  intros Hx Hxy.
  destruct (@ilog2_spec x Hx) as [H1 _].
  destruct (@ilog2_spec y) as [_ H2]; [lra|].
  assert (ilog2 x < ilog2 y + 1)%Z by (apply pow2_lt_inv; lra).
  lia.
Qed.

Lemma div_pow2 x k : x / pow2 k == x * pow2 (- k).
Proof. unfold Qdiv, pow2. now rewrite Qpower_opp. Qed.

Lemma pow2_cancel a b : pow2 a * pow2 (- b) == pow2 (a - b).
Proof. rewrite <- pow2_add. reflexivity. Qed.

(** The value of [round_to] on a positive number. *)
Lemma round_to_pos p x :
  0 < x ->
  let k := (ilog2 x - (p - 1))%Z in
  round_to p x == inject_Z (rne (x / pow2 k)) * pow2 k.
Proof.
  intros Hx k. unfold round_to.
  destruct x as [[|n|n] d]; try (unfold Qlt in Hx; simpl in Hx; lia).
  cbn [Qnum]. rewrite Qred_correct. reflexivity.
Qed.

(** A rounded value stays in the binade of the number it rounds. *)
Lemma round_to_binade p x :
  (1 <= p)%Z -> 0 < x ->
  pow2 (ilog2 x) <= round_to p x <= pow2 (ilog2 x + 1).
Proof.
  intros Hp Hx. rewrite (round_to_pos p Hx). cbv zeta.
  set (e := ilog2 x). set (k := (e - (p - 1))%Z).
  destruct (@ilog2_spec x Hx) as [Hlo Hhi]. fold e in Hlo, Hhi.
  pose proof (pow2_pos k) as Hk. pose proof (pow2_pos (- k)) as Hnk.
  assert (Hs1 : inject_Z (2 ^ (p - 1)) <= x / pow2 k).
  { rewrite <- pow2_nonneg_Z by lia. rewrite div_pow2.
    replace (p - 1)%Z with (e - k)%Z by lia.
    rewrite <- (pow2_cancel e k). apply Qmult_le_compat_r; lra. }
  assert (Hs2 : x / pow2 k <= inject_Z (2 ^ p)).
  { rewrite <- pow2_nonneg_Z by lia. rewrite div_pow2.
    replace (pow2 p) with (pow2 (e + 1 - k)) by (f_equal; lia).
    rewrite <- (pow2_cancel (e + 1) k). apply Qmult_le_compat_r; lra. }
  apply rne_ge in Hs1. apply rne_le in Hs2.
  rewrite Zle_Qle in Hs1, Hs2.
  rewrite <- !pow2_nonneg_Z in Hs1, Hs2 by lia.
  split.
  - replace (pow2 e) with (pow2 ((p - 1) + k)) by (f_equal; lia).
    rewrite pow2_add.
    apply Qmult_le_compat_r; lra.
  - replace (e + 1)%Z with (p + k)%Z by lia. rewrite pow2_add.
    apply Qmult_le_compat_r; lra.
Qed.

Lemma round_to_mono p x y :
  (1 <= p)%Z -> 0 < x -> x <= y -> round_to p x <= round_to p y.
Proof.
  intros Hp Hx Hxy.
  assert (Hy : 0 < y) by lra.
  pose proof (ilog2_mono Hx Hxy) as He.
  destruct (Z.eq_dec (ilog2 x) (ilog2 y)) as [E|N].
  - rewrite (round_to_pos p Hx), (round_to_pos p Hy). cbv zeta.
    rewrite <- E. set (k := (ilog2 x - (p - 1))%Z).
    pose proof (pow2_pos k) as Hk. pose proof (pow2_pos (- k)) as Hnk.
    apply Qmult_le_compat_r; [|lra].
    rewrite <- Zle_Qle. apply rne_mono. rewrite !div_pow2.
    apply Qmult_le_compat_r; lra.
  - destruct (round_to_binade Hp Hx) as [_ H1].
    destruct (round_to_binade Hp Hy) as [H2 _].
    assert (pow2 (ilog2 x + 1) <= pow2 (ilog2 y)) by (apply pow2_le; lia).
    lra.
Qed.

Lemma round_to_positive p x : (1 <= p)%Z -> 0 < x -> 0 < round_to p x.
Proof.
  intros Hp Hx. destruct (round_to_binade Hp Hx) as [H _].
  pose proof (pow2_pos (ilog2 x)). lra.
Qed.

Lemma round53_one : round53 1 = 1.
Proof. reflexivity. Qed.

Lemma round53_mono x y : 0 < x -> x <= y -> round53 x <= round53 y.
Proof. apply round_to_mono. lia. Qed.

Lemma fadd_one_ge d : 0 <= d -> 1 <= fadd 1 d.
Proof.
  intros Hd. unfold fadd. rewrite <- round53_one at 1.
  apply round53_mono; lra.
Qed.

Lemma score_value d :
  0 <= d -> Retrieval.score d = Ok (round53 (1 / round53 (1 + d))).
Proof.
  intros Hd. unfold Retrieval.score, fdiv.
  pose proof (fadd_one_ge Hd) as Ha.
  destruct (Qeq_bool (fadd 1 d) 0) eqn:E; [|reflexivity].
  apply Qeq_bool_iff in E. lra.
Qed.

Lemma inverse_in_unit a : 1 <= a -> 0 < 1 / a <= 1.
Proof.
  intros Ha. split.
  - apply Qlt_shift_div_l; lra.
  - apply Qle_shift_div_r; lra.
Qed.

Lemma inverse_antitone a b : 1 <= a -> a <= b -> 1 / b <= 1 / a.
Proof.
  intros Ha Hab.
  apply Qle_shift_div_l; [lra|].
  assert (E : 1 / b * a == a / b) by (field; lra).
  rewrite E. apply Qle_shift_div_r; lra.
Qed.

(** Just above [1 + 2^-53] the sum rounds up, to [1 + 2^-52] at least. *)
Lemma round53_above_one x :
  1 + pow2 (-53) < x -> 1 + pow2 (-52) <= round53 x.
Proof.
  intros Hx.
  change (pow2 (-53)) with (1 # 9007199254740992) in Hx.
  change (pow2 (-52)) with (1 # 4503599627370496).
  destruct (Qlt_le_dec x 2) as [Hlt|Hge].
  - assert (Hpos : 0 < x) by lra.
    assert (He : ilog2 x = 0%Z).
    { apply ilog2_unique. change (pow2 0) with 1. change (pow2 (0 + 1)) with 2.
      lra. }
    unfold round53. rewrite (round_to_pos 53 Hpos). cbv zeta. rewrite He.
    change (0 - (53 - 1))%Z with (-52)%Z.
    change (pow2 (-52)) with (1 # 4503599627370496).
    assert (Hr : (4503599627370496 + 1 <= rne (x / (1 # 4503599627370496)))%Z).
    { apply rne_above_half.
      assert (E : x / (1 # 4503599627370496) == x * 4503599627370496)
        by (field).
      rewrite E. change (inject_Z 4503599627370496) with 4503599627370496.
      lra. }
    rewrite Zle_Qle in Hr. rewrite inject_Z_plus in Hr.
    change (inject_Z 4503599627370496) with 4503599627370496 in Hr.
    change (inject_Z 1) with 1 in Hr. lra.
  - assert (H2 : round53 2 <= round53 x) by (apply round53_mono; lra).
    change (round53 2) with 2 in H2. lra.
Qed.

(** C8, as the code has it. The score of a distance [d >= 0] is
    [1 / (1 + d)] in binary64 arithmetic, the sum and the quotient each
    rounded to nearest. It lies in (0, 1]; it is weakly decreasing in the
    distance (the exact value [1 / (1 + d)] is strictly decreasing, but
    rounding can give two distances the same score); and it is exactly 1
    when the distance is at most [2^-53], so at distance 0 and also at
    positive distances that the sum [1 + d] rounds away. *)
Theorem score_law (d d1 d2 : float) :
  (0 <= d ->
   exists s,
     Retrieval.score d = Ok s
     /\ s = round53 (1 / round53 (1 + d))
     /\ 0 < s <= 1
     /\ (s == 1 <-> d <= pow2 (-53)))
  /\ (0 <= d1 -> d1 <= d2 ->
      exists s1 s2,
        Retrieval.score d1 = Ok s1 /\ Retrieval.score d2 = Ok s2
        /\ s2 <= s1)
  /\ (0 <= d1 -> d1 < d2 -> 1 / (1 + d2) < 1 / (1 + d1))
  /\ Retrieval.score 0 = Ok 1.
Proof.
  split; [|split; [|split]].
  - intros Hd. eexists. split; [now apply score_value|].
    split; [reflexivity|].
    pose proof (fadd_one_ge Hd) as Ha. unfold fadd in Ha.
    set (a := round53 (1 + d)) in *.
    destruct (inverse_in_unit Ha) as [Hi0 Hi1].
    assert (Hs1 : round53 (1 / a) <= 1).
    { rewrite <- round53_one at 2. now apply round53_mono. }
    split; [split; [apply round_to_positive; [lia | assumption] | exact Hs1]|].
    split.
    + intros Hone. apply Qnot_lt_le. intros Hbig.
      assert (Hx : 1 + pow2 (-53) < 1 + d) by lra.
      apply round53_above_one in Hx. fold a in Hx.
      change (pow2 (-52)) with (1 # 4503599627370496) in Hx.
      assert (Hinv : 1 / a <= 1 - (1 # 9007199254740992)).
      { apply Qle_shift_div_r; [lra|]. nra. }
      assert (Hs : round53 (1 / a) <= round53 (1 - (1 # 9007199254740992)))
        by (now apply round53_mono).
      assert (Hb : round53 (1 - (1 # 9007199254740992))
                   == 1 - (1 # 9007199254740992)) by (vm_compute; reflexivity).
      lra.
    + intros Hsmall.
      assert (Ha1 : a <= round53 (1 + pow2 (-53)))
        by (apply round53_mono; lra).
      change (round53 (1 + pow2 (-53))) with 1 in Ha1.
      assert (Hge : 1 <= 1 / a) by (apply Qle_shift_div_l; lra).
      assert (Hs : round53 1 <= round53 (1 / a))
        by (apply round53_mono; lra).
      rewrite round53_one in Hs. lra.
  - intros H1 H12.
    assert (H2 : 0 <= d2) by lra.
    exists (round53 (1 / round53 (1 + d1))), (round53 (1 / round53 (1 + d2))).
    split; [now apply score_value|]. split; [now apply score_value|].
    pose proof (fadd_one_ge H1) as Ha1. pose proof (fadd_one_ge H2) as Ha2.
    unfold fadd in Ha1, Ha2.
    assert (Ha : round53 (1 + d1) <= round53 (1 + d2))
      by (apply round53_mono; lra).
    apply round53_mono.
    + now apply inverse_in_unit.
    + now apply inverse_antitone.
  - intros H1 H12.
    apply Qlt_shift_div_l; [lra|].
    assert (E : 1 / (1 + d2) * (1 + d1) == (1 + d1) / (1 + d2))
      by (field; lra).
    rewrite E. apply Qlt_shift_div_r; lra.
  - reflexivity.
Qed.

(** C8 fails on the code: the distances [2^-60 < 2^-59], both binary32
    numbers, get the same score, and that score is exactly 1 although
    neither distance is 0. In Python, [1 / (1 + 2**-60) == 1.0]. *)
Lemma score_strictness_counterexample :
  let d1 := pow2 (-60) in
  let d2 := pow2 (-59) in
  0 <= d1 /\ d1 < d2
  /\ Retrieval.score d1 = Ok 1 /\ Retrieval.score d2 = Ok 1
  /\ ~ d1 == 0.
Proof.
  cbv zeta. repeat split; try (vm_compute; congruence).
Qed.

(** [rne] takes the even neighbour at a tie. *)
Lemma rne_tie_even x :
  x == inject_Z (rne x) - (1 # 2) \/ x == inject_Z (rne x) + (1 # 2) ->
  Z.even (rne x) = true.
Proof.
  unfold rne. pose proof (Qfloor_le x) as Hlo.
  pose proof (Qlt_floor x) as Hhi.
  rewrite inject_Z_plus in Hhi. change (inject_Z 1) with 1 in Hhi.
  destruct (Qcompare_spec (x - inject_Z (Qfloor x)) (1 # 2)) as [E|L|G].
  - intros _. destruct (Z.even (Qfloor x)) eqn:Ev; [exact Ev|].
    rewrite Z.even_add, Ev. reflexivity.
  - intros [H|H]; exfalso; lra.
  - rewrite inject_Z_plus. change (inject_Z 1) with 1.
    intros [H|H]; exfalso; lra.
Qed.

(** [hundredths] is the nearest two-digit decimal, and the only one. *)
Lemma hundredths_nearest x : nearest_hundredth x (hundredths x).
Proof.
  unfold nearest_hundredth, hundredths.
  pose proof (rne_near (x * 100)) as [Hlo Hhi].
  split; [split; lra|]. apply rne_tie_even.
Qed.

Lemma nearest_hundredth_unique x h1 h2 :
  nearest_hundredth x h1 -> nearest_hundredth x h2 -> h1 = h2.
Proof.
  intros [[L1 U1] E1] [[L2 U2] E2].
  assert (H12 : (h1 <= h2 + 1)%Z).
  { rewrite Zle_Qle, inject_Z_plus. change (inject_Z 1) with 1. lra. }
  assert (H21 : (h2 <= h1 + 1)%Z).
  { rewrite Zle_Qle, inject_Z_plus. change (inject_Z 1) with 1. lra. }
  destruct (Z.eq_dec h1 h2) as [E|N]; [exact E|exfalso].
  assert (Hs : h1 = (h2 + 1)%Z \/ h2 = (h1 + 1)%Z) by lia.
  destruct Hs as [Hs|Hs]; subst.
  - rewrite inject_Z_plus in L1, E1. change (inject_Z 1) with 1 in L1, E1.
    assert (Ev1 : Z.even (h2 + 1) = true) by (apply E1; left; lra).
    assert (Ev2 : Z.even h2 = true) by (apply E2; right; lra).
    rewrite Z.even_add, Ev2 in Ev1. discriminate.
  - rewrite inject_Z_plus in L2, E2. change (inject_Z 1) with 1 in L2, E2.
    assert (Ev2 : Z.even (h1 + 1) = true) by (apply E2; left; lra).
    assert (Ev1 : Z.even h1 = true) by (apply E1; right; lra).
    rewrite Z.even_add, Ev1 in Ev2. discriminate.
Qed.


Lemma rounded_to_2_decimals_unique x r :
  rounded_to_2_decimals x r -> r = round2 x.
Proof.
  intros (h & Hn & ->). unfold round2.
  now rewrite (nearest_hundredth_unique Hn (hundredths_nearest x)).
Qed.

End FloatFacts.

(** On the sample distances the model computes what the processor's
    binary64 arithmetic computes. *)
Example score_matches_binary64 :
  map (fun p => Binary64.to_Q (Binary64.score
                                 (Binary64.of_dyadic (fst p) (snd p))))
      sample_distances
  = map (fun p =>
           match Retrieval.score (Qred (inject_Z (fst p) * pow2 (snd p))) with
           | Ok s => Some s
           | Raise _ => None
           end)
        sample_distances.
Proof. vm_compute. reflexivity. Qed.

(** The two-digit decimals of a score, [0.00] to [1.00]: the model gives
    each the binary64 value the processor gives it. *)
Example hundredths_match_binary64 :
  map (fun h => Binary64.to_Q (Binary64.hundredth (Z.of_nat h))) (seq 0 101)
  = map (fun h => Some (round53 (inject_Z (Z.of_nat h) / 100)%Q))
      (seq 0 101).
Proof. vm_compute. reflexivity. Qed.

(** [round(x, 2)] at scores between two decimals, at a tie (the float
    [0.125] is halfway between [0.12] and [0.13]; so is [0.375] between
    [0.37] and [0.38]) and at the ends. *)
Example round2_values :
  map (fun x => Some (round2 x))
    [round53 (1 # 3); round53 (2 # 3); 1 # 8; 3 # 8; 1 # 2; 1;
     round53 (1 # 1000)]%Q
  = map (fun h => Binary64.to_Q (Binary64.hundredth h))
      [33; 67; 12; 38; 50; 100; 0]%Z.
Proof. vm_compute. reflexivity. Qed.

Lemma score_law_witness :
  exists s1 s2,
    Retrieval.score (1 # 4) = Ok s1 /\ Retrieval.score (1 # 2) = Ok s2
    /\ (s2 <= s1)%Q.
Proof.
  destruct (score_law 0 (1 # 4) (1 # 2)) as (_ & H & _).
  apply H; unfold Qle; simpl; lia.
Defined.

(** ** The retriever *)

Section RetrieverTheorems.

Import VectorStore Retrieval.

Variable vector : Type.
Variable encode : list pystr -> list vector.
Variable l2sqr : vector -> vector -> float.




(** C9. When [search] yields no result, and so on every store whose
    index holds no vector, for every query and every [top_k], [retrieve]
    returns the pair of the sentinel text and an empty citation list; it
    does not raise. *)
Theorem retrieve_empty_sentinel (self : FAISSVectorStore vector)
    (query : pystr) (top_k : Z) :
  (search encode l2sqr self query top_k = Ok [] ->
   retrieve encode l2sqr self query top_k =
   Ok (lit "No relevant documents found.", []))
  /\ (ntotal self = 0%Z ->
      retrieve encode l2sqr self query top_k =
      Ok (lit "No relevant documents found.", [])).
Proof.
  assert (H : search encode l2sqr self query top_k = Ok [] ->
              retrieve encode l2sqr self query top_k =
              Ok (lit "No relevant documents found.", [])).
  { intros Hs. unfold retrieve. rewrite Hs. reflexivity. }
  split; [exact H|].
  intros Hn. apply H. now apply search_empty.
Qed.


End RetrieverTheorems.

Lemma retrieve_empty_sentinel_witness :
  Retrieval.retrieve length_encode square_distance (fresh Q)
    (lit "vacation policy") 3
  = Ok (lit "No relevant documents found.", []).
Proof.
  apply (@retrieve_empty_sentinel Q length_encode square_distance (fresh Q)
           (lit "vacation policy") 3).
  reflexivity.
Defined.


(** ** The [/ingest] route *)

Section RouteTheorems.

Import VectorStore Api.

Variable vector : Type.
Variable encode : list pystr -> list vector.

Lemma endswith_app prefix s suffix :
  endswith s suffix = true -> endswith (prefix ++ s) suffix = true.
Proof.
  unfold endswith. intros H. apply andb_prop in H. destruct H as [Heq Hle].
  apply Nat.leb_le in Hle. apply andb_true_intro. split.
  - rewrite skipn_app, length_app.
    replace (length prefix + length s - length suffix - length prefix)%nat
      with (length s - length suffix)%nat by lia.
    rewrite skipn_all2 by lia. exact Heq.
  - apply Nat.leb_le. rewrite length_app. lia.
Qed.

Lemma join_data_cases name :
  join_data name = name \/ join_data name = lit "data/" ++ name.
Proof.
  unfold join_data. destruct name as [|c name]; [now right|].
  destruct c as [|p]; [now right|].
  do 6 (destruct p as [p|p|]; try (right; reflexivity)).
  left. reflexivity.
Qed.

Lemma endswith_join_data name suffix :
  endswith name suffix = true -> endswith (join_data name) suffix = true.
Proof.
  intros H. destruct (join_data_cases name) as [-> | ->];
    [exact H | now apply endswith_app].
Qed.

(** For a supported upload the chunks are those of the contents and the
    source name is the file name. *)
Lemma process_document_supported self name contents :
  endswith name (lit ".pdf") || endswith name (lit ".txt") = true ->
  process_document self (join_data name) contents =
  (chunk_text self contents, basename (join_data name)).
Proof.
  intros H. unfold process_document.
  destruct (endswith (join_data name) (lit ".pdf")) eqn:Epdf; [reflexivity|].
  apply orb_prop in H. destruct H as [H|H].
  - apply endswith_join_data in H. congruence.
  - apply endswith_join_data in H. now rewrite H.
Qed.

(** With a loader that returns, [process_document_file] is
    [process_document] on the text returned. *)
Lemma process_document_file_loaded self filepath contents :
  process_document_file self filepath (Ok contents) =
  Ok (process_document self filepath contents).
Proof.
  unfold process_document_file, process_document.
  destruct (endswith filepath (lit ".pdf")); [reflexivity|].
  destruct (endswith filepath (lit ".txt")); reflexivity.
Qed.

(** For a supported upload the loader runs, and what it raises leaves
    [process_document]. *)
Lemma process_document_file_raises self name e :
  endswith name (lit ".pdf") || endswith name (lit ".txt") = true ->
  process_document_file self (join_data name) (Raise e) = Raise e.
Proof.
  intros H. unfold process_document_file.
  destruct (endswith (join_data name) (lit ".pdf")) eqn:Epdf; [reflexivity|].
  apply orb_prop in H. destruct H as [H|H].
  - apply endswith_join_data in H. congruence.
  - apply endswith_join_data in H. now rewrite H.
Qed.

(** The route on an upload that was written and loaded. *)
Lemma ingest_loaded ingestor (vs : FAISSVectorStore vector)
    (disk : Disk vector) written upload_name u contents :
  endswith upload_name (lit ".pdf") || endswith upload_name (lit ".txt")
  = true ->
  written (join_data upload_name) = Ok u ->
  ingest encode ingestor vs disk written (Ok contents) upload_name =
  match chunk_text ingestor contents with
  | [] => (vs, disk, Raise (HTTPException 400 (lit "No extractable text")))
  | _ =>
      (add_documents encode vs disk (chunk_text ingestor contents)
         (basename (join_data upload_name)),
       Ok {| status := lit "success";
             filename := basename (join_data upload_name);
             chunks_created :=
               Z.of_nat (length (chunk_text ingestor contents)) |})
  end.
Proof.
  intros Hs Hw. unfold ingest. rewrite Hs, Hw. cbn [negb].
  rewrite process_document_file_loaded.
  rewrite process_document_supported by exact Hs.
  destruct (chunk_text ingestor contents) as [|c rest]; [reflexivity|].
  destruct (add_documents encode vs disk (c :: rest)
              (basename (join_data upload_name))); reflexivity.
Qed.

(** C3, as the code has it. The route has no answer for a skipped
    source. What a caller can tell apart is: an error answer (status 400)
    when the file type is not supported or the document gives no chunk;
    an exception that leaves the route unhandled when the upload cannot
    be written at its path or the loader fails on it; and otherwise the
    success answer with the file name and the number of chunks of the
    document. In the first two cases the store and its files are
    untouched. The answer never depends on the store: it is the same
    success answer whether [add_documents] added the chunks or skipped
    an already indexed source. *)
Theorem ingest_outcomes (ingestor : DocumentIngestor)
    (vs : FAISSVectorStore vector) (disk : Disk vector)
    (written : pystr -> result unit) (loaded : result pystr)
    (upload_name : pystr) :
  let path := join_data upload_name in
  let name := basename path in
  let supported :=
    endswith upload_name (lit ".pdf") || endswith upload_name (lit ".txt") in
  let outcome := ingest encode ingestor vs disk written loaded upload_name in
  (forall vs0 disk0,
     snd (ingest encode ingestor vs0 disk0 written loaded upload_name) =
     snd outcome)
  /\ (supported = false ->
      outcome =
      (vs, disk, Raise (HTTPException 400 (lit "Only PDF/TXT supported"))))
  /\ (forall e, supported = true -> written path = Raise e ->
      outcome = (vs, disk, Raise e))
  /\ (forall u e, supported = true -> written path = Ok u ->
      loaded = Raise e ->
      outcome = (vs, disk, Raise e))
  /\ (forall u contents, supported = true -> written path = Ok u ->
      loaded = Ok contents ->
      let chunks := chunk_text ingestor contents in
      (chunks = [] ->
       outcome =
       (vs, disk, Raise (HTTPException 400 (lit "No extractable text"))))
      /\ (chunks <> [] ->
          outcome =
          (add_documents encode vs disk chunks name,
           Ok {| status := lit "success"; filename := name;
                 chunks_created := Z.of_nat (length chunks) |}))
      /\ (chunks <> [] ->
          In name (map source (metadata vs)) ->
          outcome =
          (vs, disk,
           Ok {| status := lit "success"; filename := name;
                 chunks_created := Z.of_nat (length chunks) |}))).
Proof.
  intros path name supported outcome.
  assert (Hun : supported = false ->
            forall vs0 disk0,
              ingest encode ingestor vs0 disk0 written loaded upload_name =
              (vs0, disk0,
               Raise (HTTPException 400 (lit "Only PDF/TXT supported")))).
  { intros Hs vs0 disk0. unfold ingest. fold supported. now rewrite Hs. }
  assert (Hwrite : forall e, supported = true -> written path = Raise e ->
            forall vs0 disk0,
              ingest encode ingestor vs0 disk0 written loaded upload_name =
              (vs0, disk0, Raise e)).
  { intros e Hs Hw vs0 disk0. unfold ingest. fold supported path.
    now rewrite Hs, Hw. }
  assert (Hload : forall u e, supported = true -> written path = Ok u ->
            loaded = Raise e ->
            forall vs0 disk0,
              ingest encode ingestor vs0 disk0 written loaded upload_name =
              (vs0, disk0, Raise e)).
  { intros u e Hs Hw Hl vs0 disk0. unfold ingest. fold supported path.
    rewrite Hs, Hw, Hl. cbn [negb]. unfold path.
    now rewrite process_document_file_raises by exact Hs. }
  assert (Hok : forall u contents, supported = true -> written path = Ok u ->
            loaded = Ok contents ->
            forall vs0 disk0,
              ingest encode ingestor vs0 disk0 written loaded upload_name =
              match chunk_text ingestor contents with
              | [] =>
                  (vs0, disk0,
                   Raise (HTTPException 400 (lit "No extractable text")))
              | _ =>
                  (add_documents encode vs0 disk0
                     (chunk_text ingestor contents) name,
                   Ok {| status := lit "success"; filename := name;
                         chunks_created :=
                           Z.of_nat
                             (length (chunk_text ingestor contents)) |})
              end).
  { intros u contents Hs Hw Hl vs0 disk0. rewrite Hl.
    exact (@ingest_loaded ingestor vs0 disk0 written upload_name u
             contents Hs Hw). }
  split.
  { intros vs0 disk0. subst outcome.
    destruct supported eqn:Hs; [|now rewrite !Hun].
    destruct (written path) as [u|e] eqn:Hw;
      [|now rewrite !(Hwrite e) by reflexivity].
    destruct loaded as [contents|e] eqn:Hl;
      [|now rewrite !(Hload u e) by reflexivity].
    rewrite !(Hok u contents) by reflexivity.
    destruct (chunk_text ingestor contents); reflexivity. }
  split; [intros Hs; now apply Hun|].
  split; [intros e Hs Hw; now apply Hwrite|].
  split; [intros u e Hs Hw Hl; now apply (Hload u e)|].
  intros u contents Hs Hw Hl chunks. subst outcome.
  rewrite (Hok u contents) by assumption. fold chunks.
  split; [intros Hc; now rewrite Hc|].
  split.
  - intros Hc. destruct chunks; [contradiction|reflexivity].
  - intros Hc Hin. destruct chunks as [|c rest] eqn:E; [contradiction|].
    now rewrite (@add_documents_duplicate _ encode vs disk (c :: rest)
                   name Hin).
Qed.

End RouteTheorems.

(** C3 fails on the code: the same document sent twice gets the same
    answer both times, [chunks_created = 1], although the second request
    adds nothing. No answer of the route says that a source was skipped. *)
Lemma ingest_duplicate_counterexample :
  let first := Api.ingest length_encode default_ingestor (fresh Q)
                 (VectorStore.no_files Q) flat_data_dir (Ok policy_text)
                 (lit "policy.txt") in
  let second := Api.ingest length_encode default_ingestor
                  (fst (fst first)) (snd (fst first))
                  flat_data_dir (Ok policy_text) (lit "policy.txt") in
  snd first =
    Ok {| Api.status := lit "success"; Api.filename := lit "policy.txt";
          Api.chunks_created := 1 |}
  /\ snd second = snd first
  /\ fst second = fst first
  /\ VectorStore.ntotal (fst (fst second)) = 1%Z.
Proof. cbv zeta. repeat split. Qed.

Lemma ingest_outcomes_witness :
  Api.ingest length_encode default_ingestor sample_store
    (VectorStore.no_files Q) flat_data_dir (Ok policy_text) (lit "A.txt")
  = (sample_store, VectorStore.no_files Q,
     Ok {| Api.status := lit "success"; Api.filename := lit "A.txt";
           Api.chunks_created := 1 |}).
Proof.
  destruct (@ingest_outcomes Q length_encode default_ingestor sample_store
              (VectorStore.no_files Q) flat_data_dir (Ok policy_text)
              (lit "A.txt"))
    as (_ & _ & _ & _ & H).
  destruct (H tt policy_text) as (_ & _ & H3).
  - reflexivity.
  - reflexivity.
  - reflexivity.
  - apply H3.
    + vm_compute. discriminate.
    + simpl. left. reflexivity.
Defined.

(** An upload name with a directory part: the route joins it to [data]
    as it comes, [open] finds no directory [data/sub], and the exception
    leaves the route with the store and its files as they were. *)
Example nested_upload_name_fails :
  Api.join_data (lit "sub/policy.txt") = lit "data/sub/policy.txt"
  /\ Api.ingest length_encode default_ingestor sample_store
       (VectorStore.no_files Q) flat_data_dir (Ok policy_text)
       (lit "sub/policy.txt")
     = (sample_store, VectorStore.no_files Q, Raise FileNotFoundError).
Proof. split; reflexivity. Qed.

(** A text file that is no UTF-8: [load_txt] raises, and so does the
    route. *)
Example undecodable_upload_fails :
  Api.ingest length_encode default_ingestor sample_store
    (VectorStore.no_files Q) flat_data_dir (Raise UnicodeDecodeError)
    (lit "policy.txt")
  = (sample_store, VectorStore.no_files Q, Raise UnicodeDecodeError).
Proof. reflexivity. Qed.

(** ** The scenario of the handbook *)

(** A document of 600 words gives two chunks, from the windows at word
    offsets 0 and 400; ingested into an empty store they are two vectors
    of one document. *)
Example handbook_scenario :
  let outcome := Api.ingest length_encode default_ingestor (fresh Q)
                   (VectorStore.no_files Q) flat_data_dir
                   (Ok handbook_text) (lit "handbook.txt") in
  length (chunk_text default_ingestor handbook_text) = 2%nat
  /\ snd outcome =
     Ok {| Api.status := lit "success"; Api.filename := lit "handbook.txt";
           Api.chunks_created := 2 |}
  /\ VectorStore.total_chunks (VectorStore.get_stats (fst (fst outcome)))
     = 2%Z
  /\ VectorStore.total_documents
       (VectorStore.get_stats (fst (fst outcome))) = 1%Z.
Proof. vm_compute. repeat split. Qed.

Example citation_format :
  Retrieval.citation handbook_record (1 # 2)
  = lit "handbook.txt (Chunk 1, Relevance: 0.50)".
Proof. reflexivity. Qed.

Example context_part_format :
  Retrieval.context_part 2 handbook_record
  = lit "[Source 2: handbook.txt, Chunk 1]" ++ Retrieval.newline
    ++ lit "Vacation is paid.".
Proof. reflexivity. Qed.

(** * Further properties *)

(** ** The chunker: what a chunk is made of *)

Section ChunkerMore.

Variable self : DocumentIngestor.

Lemma range_from_length fuel :
  forall i stop step, (length (range_from fuel i stop step) <= fuel)%nat.
Proof.
  induction fuel as [|fuel IH]; intros i stop step; simpl; [lia|].
  destruct (i <? stop)%Z; simpl; [|lia].
  specialize (IH (i + step)%Z stop step). lia.
Qed.

Lemma emitted_length words i : (length (emitted self words i) <= 1)%nat.
Proof. unfold emitted. destruct (50 <? len _)%Z; simpl; lia. Qed.

Lemma flat_map_emitted_length words starts :
  (length (flat_map (emitted self words) starts) <= length starts)%nat.
Proof.
  induction starts as [|i starts IH]; simpl; [lia|].
  rewrite length_app. pose proof (emitted_length words i). lia.
Qed.

Lemma chunk_text_windows text :
  chunk_text self text =
  flat_map (emitted self (split text))
    (range 0 (Z.of_nat (length (split text))) (step_of self)).
Proof. unfold chunk_text. now rewrite chunk_loop. Qed.

(** A window that starts inside the text is a run of consecutive words
    from its offset on. *)
Lemma window_run words i :
  (0 <= i <= Z.of_nat (length words))%Z ->
  exists m, window self words i = firstn m (skipn (Z.to_nat i) words).
Proof.
  intros Hi. unfold window, slice, clamp_index.
  destruct (Z.ltb_spec i 0); [lia|].
  rewrite (Z.min_l i) by lia. eexists. reflexivity.
Qed.

Lemma join_cons sep (p : pystr) rest :
  rest <> [] -> join sep (p :: rest) = p ++ sep ++ join sep rest.
Proof. intros H. destruct rest; [now destruct H | reflexivity]. Qed.

Lemma join_length_cons sep (p : pystr) rest :
  (length (join sep rest) <= length (join sep (p :: rest)))%nat.
Proof.
  destruct rest as [|q rest]; [simpl; lia|].
  rewrite (@join_cons sep p (q :: rest)) by discriminate.
  rewrite !length_app. lia.
Qed.

Lemma join_length_skipn sep b :
  forall ws : list pystr,
    (length (join sep (skipn b ws)) <= length (join sep ws))%nat.
Proof.
  induction b as [|b IH]; intros ws; [simpl; lia|].
  destruct ws as [|w ws]; [simpl; lia|].
  cbn [skipn]. pose proof (IH ws). pose proof (join_length_cons sep w ws). lia.
Qed.

Lemma join_length_firstn sep a :
  forall ws : list pystr,
    (length (join sep (firstn a ws)) <= length (join sep ws))%nat.
Proof.
  induction a as [|a IH]; intros ws; [simpl; lia|].
  destruct ws as [|w ws]; [simpl; lia|].
  cbn [firstn]. pose proof (IH ws) as H.
  destruct ws as [|w' ws]; [destruct a; simpl; lia|].
  destruct a as [|a].
  - cbn [firstn]. rewrite (@join_cons sep w (w' :: ws)) by discriminate.
    simpl. rewrite !length_app. lia.
  - rewrite (@join_cons sep w (firstn (S a) (w' :: ws))) by (simpl; discriminate).
    rewrite (@join_cons sep w (w' :: ws)) by discriminate.
    rewrite !length_app. lia.
Qed.

Lemma window_join_length words i :
  (length (join [space] (window self words i))
   <= length (join [space] words))%nat.
Proof.
  unfold window, slice.
  etransitivity; [apply join_length_firstn | apply join_length_skipn].
Qed.

Lemma range_from_done fuel i stop step :
  (stop <= i)%Z -> range_from fuel i stop step = [].
Proof.
  intros H. destruct fuel; simpl; [reflexivity|].
  destruct (Z.ltb_spec i stop); [lia | reflexivity].
Qed.

Lemma flat_map_nil {A B} (f : A -> list B) l :
  (forall a, In a l -> f a = []) -> flat_map f l = [].
Proof.
  induction l as [|a l IH]; intros H; simpl; [reflexivity|].
  rewrite (H a) by now left. apply IH. intros b Hb. apply H. now right.
Qed.

(** No window of a short text is long enough to be a chunk. *)
Lemma emitted_short text i :
  (len (join [space] (split text)) <= 50)%Z ->
  emitted self (split text) i = [].
Proof.
  intros Hshort. unfold emitted.
  destruct (@block_at_words self text i) as [-> _].
  pose proof (window_join_length (split text) i) as Hle.
  destruct (Z.ltb_spec 50 (len (join [space] (window self (split text) i))));
    [|reflexivity].
  unfold len in *. lia.
Qed.

(** X1. Every chunk is a run of consecutive words of the text, starting
    at a word offset that is a multiple of the step, with one space
    between two words and no white space around; it has at most
    [chunk_size] words. *)
Theorem chunk_is_run_of_words (text chunk : pystr) :
  In chunk (chunk_text self text) ->
  exists (k m : nat),
    (Z.of_nat k * step_of self < Z.of_nat (length (split text)))%Z
    /\ split chunk =
       firstn m (skipn (Z.to_nat (Z.of_nat k * step_of self)) (split text))
    /\ chunk = join [space] (split chunk)
    /\ strip chunk = chunk
    /\ ((0 <= chunk_size self)%Z ->
        (Z.of_nat (length (split chunk)) <= chunk_size self)%Z).
Proof.
  intros Hin. rewrite chunk_text_windows in Hin.
  apply in_flat_map in Hin. destruct Hin as (i & Hi & Hc).
  apply In_nth_error in Hi. destruct Hi as [k Hk].
  rewrite range_nth in Hk by apply step_of_positive.
  destruct (Z.ltb_spec (Z.of_nat k * step_of self)
              (Z.of_nat (length (split text)))) as [Hlt|]; [|discriminate].
  inversion Hk; subst i; clear Hk.
  pose proof (step_of_positive self) as Hstep.
  set (i := (Z.of_nat k * step_of self)%Z) in *.
  assert (Hi0 : (0 <= i)%Z) by (subst i; nia).
  unfold emitted in Hc.
  destruct (50 <? len (block_at self (split text) i))%Z; [|contradiction].
  destruct Hc as [Hc|[]]. subst chunk.
  destruct (@block_at_words self text i) as [Hjoin Hsplit].
  assert (Hw : Forall is_word (window self (split text) i))
    by (apply Forall_window, split_words).
  destruct (@window_run (split text) i) as [m Hm]; [lia|].
  exists k, m. split; [exact Hlt|].
  split; [now rewrite Hsplit|].
  split; [now rewrite Hsplit|].
  split; [rewrite Hjoin; now apply strip_join|].
  intros Hsize. rewrite Hsplit. unfold window.
  rewrite slice_window by lia. rewrite length_firstn. lia.
Qed.

(** X2. There are never more chunks than words, nor more chunks than
    window starts: with [c] chunks, [(c - 1) * step] is below the number
    of words. *)
Theorem chunk_count_bound (text : pystr) :
  (length (chunk_text self text) <= length (split text))%nat
  /\ (chunk_text self text = []
      \/ ((Z.of_nat (length (chunk_text self text)) - 1) * step_of self
          < Z.of_nat (length (split text)))%Z).
Proof.
  pose proof (step_of_positive self) as Hstep.
  rewrite chunk_text_windows.
  set (n := Z.of_nat (length (split text))).
  set (starts := range 0 n (step_of self)).
  pose proof (flat_map_emitted_length (split text) starts) as Hle.
  assert (Hfuel : (length starts <= length (split text))%nat).
  { subst starts. unfold range.
    pose proof (range_from_length (Z.to_nat (n - 0)) 0 n (step_of self)).
    subst n. lia. }
  split; [lia|].
  destruct (flat_map (emitted self (split text)) starts) as [|c cs] eqn:E;
    [now left | right].
  assert (Hpos : (0 < length starts)%nat) by (simpl in Hle; lia).
  destruct (nth_error starts (length starts - 1)) as [i|] eqn:Hn;
    [|apply nth_error_None in Hn; lia].
  subst starts. rewrite range_nth in Hn by assumption.
  destruct (Z.ltb_spec (Z.of_nat (length (range 0 n (step_of self)) - 1)
                        * step_of self) n) as [Hlt|]; [|discriminate].
  simpl length in *. nia.
Qed.

(** X3. With an overlap that is not negative and a chunk size of at
    least one word, the windows leave no gap: every word of the text is
    in the window that starts at the last multiple of the step at or
    before it. *)
Theorem windows_cover_words (text : pystr) (j : nat) (word : pystr) :
  (0 <= overlap self)%Z -> (1 <= chunk_size self)%Z ->
  nth_error (split text) j = Some word ->
  exists i,
    In i (range 0 (Z.of_nat (length (split text))) (step_of self))
    /\ (i <= Z.of_nat j < i + chunk_size self)%Z
    /\ nth_error (window self (split text) i) (j - Z.to_nat i) = Some word.
Proof.
  intros Hov Hsize Hj.
  pose proof (step_of_positive self) as Hstep.
  assert (Hle : (step_of self <= chunk_size self)%Z)
    by (unfold step_of in *; lia).
  assert (Hjn : (j < length (split text))%nat)
    by (apply nth_error_Some; congruence).
  set (k := (Z.of_nat j / step_of self)%Z).
  set (i := (k * step_of self)%Z).
  assert (Hk : (0 <= k)%Z) by (subst k; apply Z.div_pos; lia).
  assert (Hdiv : (i <= Z.of_nat j < i + step_of self)%Z).
  { subst i k. pose proof (Z.div_mod (Z.of_nat j) (step_of self)).
    pose proof (Z.mod_pos_bound (Z.of_nat j) (step_of self)). lia. }
  exists i. split; [|split; [lia|]].
  - apply (nth_error_In _ (Z.to_nat k)).
    rewrite range_nth by assumption. rewrite Z2Nat.id by assumption.
    fold i. destruct (Z.ltb_spec i (Z.of_nat (length (split text))));
      [reflexivity | lia].
  - unfold window. rewrite slice_window by lia.
    rewrite nth_error_firstn.
    destruct (Nat.ltb_spec (j - Z.to_nat i) (Z.to_nat (chunk_size self)));
      [|lia].
    rewrite nth_error_skipn.
    replace (Z.to_nat i + (j - Z.to_nat i))%nat with j by lia.
    exact Hj.
Qed.

(** X4. A text whose words, joined by single spaces, take at most 50
    characters gives no chunk at all, whatever the chunk size and the
    overlap. *)
Theorem short_text_no_chunks (text : pystr) :
  (len (join [space] (split text)) <= 50)%Z -> chunk_text self text = [].
Proof.
  intros Hshort. rewrite chunk_text_windows.
  apply flat_map_nil. intros i _. now apply emitted_short.
Qed.

(** X5. A text whose words, joined by single spaces, make more than 50
    characters, and which has no more words than the step and the chunk
    size, is one chunk: these words with single spaces between them. The
    50 characters are counted after the white space is normalised, not
    in the text as it comes. *)
Theorem small_document_single_chunk (text : pystr) :
  (Z.of_nat (length (split text)) <= step_of self)%Z ->
  (Z.of_nat (length (split text)) <= chunk_size self)%Z ->
  (50 < len (join [space] (split text)))%Z ->
  chunk_text self text = [join [space] (split text)].
Proof.
  intros Hstep Hsize Hlong. rewrite chunk_text_windows.
  assert (Hne : (0 < length (split text))%nat).
  { destruct (split text); [simpl in Hlong; unfold len in Hlong; simpl in Hlong; lia|].
    simpl. lia. }
  assert (Hrange : range 0 (Z.of_nat (length (split text))) (step_of self)
                   = [0%Z]).
  { unfold range.
    destruct (Z.to_nat (Z.of_nat (length (split text)) - 0)) as [|fuel] eqn:E;
      [lia|].
    cbn [range_from].
    destruct (Z.ltb_spec 0 (Z.of_nat (length (split text)))); [|lia].
    rewrite range_from_done by lia. reflexivity. }
  rewrite Hrange. cbn [flat_map]. rewrite app_nil_r. unfold emitted.
  destruct (@block_at_words self text 0) as [-> _].
  assert (Hwin : window self (split text) 0 = split text).
  { unfold window. rewrite slice_window by lia.
    cbn [Z.to_nat skipn]. apply firstn_all2. lia. }
  rewrite Hwin.
  destruct (Z.ltb_spec 50 (len (join [space] (split text)))); [reflexivity|lia].
Qed.

End ChunkerMore.

Lemma chunk_is_run_of_words_witness :
  exists (k m : nat),
    split (join [space] (split policy_text)) =
    firstn m (skipn (Z.to_nat (Z.of_nat k * step_of default_ingestor))
                (split policy_text)).
Proof.
  destruct (@chunk_is_run_of_words default_ingestor policy_text
              (join [space] (split policy_text)))
    as (k & m & _ & H & _).
  - vm_compute. left. reflexivity.
  - exists k, m. exact H.
Defined.

Lemma windows_cover_words_witness :
  exists i,
    In i (range 0 (Z.of_nat (length (split sample_text))) 400)
    /\ (i <= 1000 < i + 500)%Z.
Proof.
  destruct (@windows_cover_words default_ingestor sample_text 1000
              (lit "w1000"))
    as (i & Hin & Hb & _).
  - vm_compute. discriminate.
  - vm_compute. discriminate.
  - vm_compute. reflexivity.
  - exists i. split; [exact Hin | exact Hb].
Defined.

Lemma short_text_no_chunks_witness :
  chunk_text default_ingestor (lit "  hello   world ") = [].
Proof.
  apply (@short_text_no_chunks default_ingestor (lit "  hello   world ")).
  vm_compute. discriminate.
Defined.

Lemma small_document_single_chunk_witness :
  chunk_text default_ingestor policy_text = [policy_text].
Proof.
  apply (@small_document_single_chunk default_ingestor policy_text).
  - vm_compute. discriminate.
  - vm_compute. discriminate.
  - reflexivity.
Defined.

(** A text of 59 characters, ten of them the spaces of one gap: its
    words joined by single spaces make 50 characters, and it gives no
    chunk. *)
Example padded_text_no_chunk :
  let text := repeat 97%N 48 ++ repeat 32%N 10 ++ [98%N] in
  len text = 59%Z
  /\ len (join [space] (split text)) = 50%Z
  /\ chunk_text default_ingestor text = [].
Proof. vm_compute. repeat split. Qed.

(** ** The loaders and the names of sources *)

Section LoaderMore.

Import Loader Api.

Lemma split_from_space cur (a b : pystr) c :
  isspace c = true ->
  split_from cur (a ++ c :: b) = split_from cur a ++ split b.
Proof.
  intros Hc. revert cur. induction a as [|x a IH]; intros cur.
  - cbn [app split_from]. rewrite Hc. destruct cur; reflexivity.
  - cbn [app split_from]. destruct (isspace x).
    + destruct cur; [apply IH|]. rewrite IH. reflexivity.
    + apply IH.
Qed.

Lemma load_pdf_fold pages :
  forall text,
    fold_left
      (fun text page => text ++ (extract_or_empty page ++ Retrieval.newline))
      pages text
    = text ++ concat (map (fun page => extract_or_empty page
                                        ++ Retrieval.newline) pages).
Proof.
  induction pages as [|page pages IH]; intros text; simpl.
  - now rewrite app_nil_r.
  - rewrite IH, <- app_assoc. reflexivity.
Qed.

(** X6. The words of the text of a PDF are the words of its pages, page
    after page: the line break put after each page keeps the last word of
    a page apart from the first word of the next, and a page without text
    adds nothing. *)
Theorem load_pdf_words (pages : list (option pystr)) :
  split (load_pdf pages)
  = concat (map (fun page => split (extract_or_empty page)) pages).
Proof.
  unfold load_pdf. rewrite load_pdf_fold. cbn [app].
  induction pages as [|page pages IH]; [reflexivity|].
  cbn [map concat]. unfold Retrieval.newline at 1.
  rewrite <- app_assoc. cbn [app]. unfold split at 1.
  rewrite split_from_space by reflexivity.
  fold (split (extract_or_empty page)). now rewrite IH.
Qed.

Lemma no_slash name : plain_name name -> existsb (N.eqb 47) name = false.
Proof.
  intros H. destruct (existsb (N.eqb 47) name) eqn:E; [|reflexivity].
  apply existsb_exists in E. destruct E as (c & Hin & Hc).
  apply N.eqb_eq in Hc. subst c. contradiction.
Qed.

Lemma basename_suffix path :
  exists dir, path = dir ++ basename path.
Proof.
  induction path as [|c rest IH].
  - exists []. reflexivity.
  - cbn [basename]. destruct (existsb (N.eqb 47) rest).
    + destruct IH as [dir Hdir]. exists (c :: dir). simpl. now f_equal.
    + destruct (c =? 47)%N.
      * exists [c]. reflexivity.
      * exists []. reflexivity.
Qed.

Lemma basename_plain path : plain_name (basename path).
Proof.
  unfold plain_name. induction path as [|c rest IH]; [intros []|].
  cbn [basename]. destruct (existsb (N.eqb 47) rest) eqn:E; [exact IH|].
  assert (Hrest : ~ In 47%N rest).
  { intros Hin. assert (existsb (N.eqb 47) rest = true); [|congruence].
    apply existsb_exists. exists 47%N. split; [assumption | reflexivity]. }
  destruct (N.eqb_spec c 47); [exact Hrest|].
  intros [Hc|Hin]; [congruence | contradiction].
Qed.

Lemma basename_of_plain name : plain_name name -> basename name = name.
Proof.
  intros H. destruct name as [|c rest]; [reflexivity|].
  cbn [basename].
  rewrite no_slash by (intros Hin; apply H; now right).
  destruct (N.eqb_spec c 47) as [->|]; [|reflexivity].
  exfalso. apply H. now left.
Qed.

Lemma basename_after_dir dir name :
  plain_name name -> basename (dir ++ 47%N :: name) = name.
Proof.
  intros H. induction dir as [|c dir IH].
  - cbn [app basename]. rewrite no_slash by assumption.
    reflexivity.
  - cbn [app basename].
    replace (existsb (N.eqb 47) (dir ++ 47%N :: name)) with true; [exact IH|].
    symmetry. apply existsb_exists. exists 47%N.
    split; [apply in_or_app; right; now left | reflexivity].
Qed.

Lemma basename_join_data name :
  plain_name name -> basename (join_data name) = name.
Proof.
  intros H. destruct (join_data_cases name) as [-> | ->].
  - now apply basename_of_plain.
  - change (lit "data/" ++ name) with (lit "data" ++ 47%N :: name).
    now apply basename_after_dir.
Qed.

Variable self : DocumentIngestor.

Lemma process_document_name filepath contents :
  snd (process_document self filepath contents) = basename filepath.
Proof.
  unfold process_document.
  destruct (endswith filepath (lit ".pdf")); [reflexivity|].
  destruct (endswith filepath (lit ".txt")); reflexivity.
Qed.

(** X7. The source name that [process_document] returns is a file name,
    never a path: it has no ["/"] in it and is the end of the path it was
    given. For an upload kept under its own name, a name without
    directory part that ends in [.pdf] or [.txt], the source is that name
    and the chunks are those of the text of the file. *)
Theorem source_is_file_name (filepath name contents : pystr) :
  plain_name (snd (process_document self filepath contents))
  /\ (exists dir,
        filepath = dir ++ snd (process_document self filepath contents))
  /\ (plain_name name ->
      endswith name (lit ".pdf") || endswith name (lit ".txt") = true ->
      process_document self (join_data name) contents
      = (chunk_text self contents, name)).
Proof.
  rewrite process_document_name.
  split; [apply basename_plain|]. split; [apply basename_suffix|].
  intros Hplain Hext.
  rewrite process_document_supported by assumption.
  now rewrite basename_join_data.
Qed.

End LoaderMore.

Lemma source_is_file_name_witness :
  Api.process_document default_ingestor (Api.join_data (lit "policy.txt"))
    policy_text
  = ([policy_text], lit "policy.txt").
Proof.
  destruct (@source_is_file_name default_ingestor [] (lit "policy.txt")
              policy_text) as (_ & _ & H).
  rewrite H.
  - reflexivity.
  - vm_compute. intros H0. repeat (destruct H0 as [H0|H0]; [discriminate|]).
    exact H0.
  - reflexivity.
Defined.

(** ** The store: persistence, order and sources *)

Section StoreMore.

Import VectorStore.

Variable vector : Type.
Variable encode : list pystr -> list vector.

Lemma add_all_cons call calls (w : FAISSVectorStore vector * Disk vector) :
  add_all encode (call :: calls) w =
  add_all encode calls
    (add_documents encode (fst w) (snd w) (fst call) (snd call)).
Proof. reflexivity. Qed.

(** A property that [add_documents] keeps holds after any sequence of
    calls. *)
Lemma add_all_invariant
    (P : FAISSVectorStore vector * Disk vector -> Prop) :
  (forall self disk chunks src,
     P (self, disk) -> P (add_documents encode self disk chunks src)) ->
  forall calls w, P w -> P (add_all encode calls w).
Proof.
  intros Hstep. induction calls as [|[chunks src] calls IH]; intros w Hw.
  - exact Hw.
  - rewrite add_all_cons. apply IH. destruct w as [self disk].
    now apply Hstep.
Qed.

(** X8. What the files hold is the store: after any sequence of
    [add_documents] calls from the empty store, and after any single
    accepted call whatever the files held before, opening the files again
    gives the store as it is in memory. *)
Theorem reopen_gives_same_store (calls : list (list pystr * pystr)) :
  (let w := add_all encode calls (fresh vector, no_files vector) in
   init (snd w) = Ok (fst w))
  /\ (forall self disk chunks src,
        already_indexed self src = false -> chunks <> [] ->
        let w := add_documents encode self disk chunks src in
        init (snd w) = Ok (fst w)).
Proof.
  assert (Hacc : forall self disk chunks src,
            already_indexed self src = false -> chunks <> [] ->
            init (snd (add_documents encode self disk chunks src))
            = Ok (fst (add_documents encode self disk chunks src))).
  { intros self disk chunks src Hnew Hne.
    rewrite add_documents_accepted by assumption. reflexivity. }
  split; [|exact Hacc].
  cbv zeta.
  apply (add_all_invariant (fun w => init (snd w) = Ok (fst w)));
    [|reflexivity].
  intros self disk chunks src Hw.
  destruct (add_documents_cases encode self disk chunks src)
    as [-> | [Hnew Hne]]; [exact Hw | now apply Hacc].
Qed.

(** X9. The store only grows at its end: after any sequence of calls,
    on any store, the vectors and the records that were there are still
    there, at the same positions, followed by what was added. *)
Theorem store_is_append_only (calls : list (list pystr * pystr))
    (w : FAISSVectorStore vector * Disk vector) :
  exists rows metas,
    index (fst (add_all encode calls w)) = index (fst w) ++ rows
    /\ metadata (fst (add_all encode calls w)) = metadata (fst w) ++ metas.
Proof.
  revert w. induction calls as [|[chunks src] calls IH]; intros [self disk].
  - exists [], []. now rewrite !app_nil_r.
  - rewrite add_all_cons. cbn [fst snd].
    destruct (IH (add_documents encode self disk chunks src))
      as (rows & metas & Hr & Hm).
    rewrite Hr, Hm.
    destruct (add_documents_cases encode self disk chunks src)
      as [-> | [Hnew Hne]].
    + now exists rows, metas.
    + rewrite add_documents_accepted by assumption.
      cbn [fst index metadata].
      exists (encode chunks ++ rows), (batch_metadata chunks src ++ metas).
      now rewrite !app_assoc.
Qed.

Lemma batch_sources chunks src m :
  In m (batch_metadata chunks src) -> source m = src.
Proof.
  unfold batch_metadata. intros H. apply in_map_iff in H.
  destruct H as (it & <- & _). reflexivity.
Qed.

Lemma already_indexed_iff (self : FAISSVectorStore vector) src :
  already_indexed self src = true <-> In src (map source (metadata self)).
Proof.
  unfold already_indexed. rewrite existsb_exists, in_map_iff.
  split; intros (m & H1 & H2).
  - exists m. apply eqb_eq in H2. auto.
  - exists m. split; [assumption | now apply eqb_eq].
Qed.

Lemma indexed_after_add (self : FAISSVectorStore vector) disk chunks src :
  chunks <> [] ->
  already_indexed (fst (add_documents encode self disk chunks src)) src
  = true.
Proof.
  intros Hne.
  destruct (already_indexed self src) eqn:Hold.
  - unfold add_documents. rewrite Hold. exact Hold.
  - rewrite add_documents_accepted by assumption. cbn [fst].
    apply already_indexed_iff. cbn [metadata].
    rewrite map_app. apply in_or_app. right.
    destruct chunks as [|c rest]; [contradiction|].
    left. reflexivity.
Qed.

(** X10. A source is taken once. After a call with chunks for a source,
    that source is indexed, and every later call for it, with the same
    or with other chunks, leaves store and files as they are; so the same
    call made twice is the call made once. *)
Theorem source_is_taken_once (self : FAISSVectorStore vector)
    (disk : Disk vector) (chunks later : list pystr) (src : pystr) :
  (chunks <> [] ->
   let w := add_documents encode self disk chunks src in
   In src (map source (metadata (fst w)))
   /\ add_documents encode (fst w) (snd w) later src = w)
  /\ add_all encode [(chunks, src); (chunks, src)] (self, disk)
     = add_all encode [(chunks, src)] (self, disk).
Proof.
  assert (H : chunks <> [] ->
            let w := add_documents encode self disk chunks src in
            In src (map source (metadata (fst w)))
            /\ add_documents encode (fst w) (snd w) later src = w).
  { intros Hne w.
    pose proof (indexed_after_add self disk src Hne) as Hin. fold w in Hin.
    split; [now apply already_indexed_iff|].
    unfold add_documents at 1. rewrite Hin. now destruct w. }
  split; [exact H|].
  cbn [add_all fold_left fst snd].
  destruct chunks as [|c rest].
  - assert (E : add_documents encode self disk [] src = (self, disk))
      by (unfold add_documents; destruct (already_indexed self src);
          reflexivity).
    rewrite E. cbn [fst snd]. exact E.
  - unfold add_documents at 1.
    rewrite (indexed_after_add self disk src (chunks := c :: rest))
      by discriminate.
    now destruct (add_documents encode self disk (c :: rest) src).
Qed.

End StoreMore.

Section StoreSources.

Import VectorStore.

Variable vector : Type.
Variable encode : list pystr -> list vector.

Lemma records_of_app src a b :
  records_of src (a ++ b) = records_of src a ++ records_of src b.
Proof. apply filter_app. Qed.

Lemma records_of_batch src chunks s :
  records_of src (batch_metadata chunks s)
  = if eqb s src then batch_metadata chunks s else [].
Proof.
  unfold records_of.
  assert (H : forall l : list Meta,
            (forall m, In m l -> source m = s) ->
            filter (fun m => eqb (source m) src) l
            = if eqb s src then l else []).
  { induction l as [|m l IH]; intros Hl; simpl.
    - now destruct (eqb s src).
    - rewrite (Hl m) by now left. rewrite IH by (intros; apply Hl; now right).
      now destruct (eqb s src). }
  apply H. intros m. apply batch_sources.
Qed.

Lemma records_of_absent (self : FAISSVectorStore vector) src :
  already_indexed self src = false -> records_of src (metadata self) = [].
Proof.
  unfold already_indexed, records_of.
  induction (metadata self) as [|m l IH]; simpl; [reflexivity|].
  intros H. apply orb_false_iff in H. destruct H as [-> H]. now apply IH.
Qed.

Lemma existsb_same_source (l : list Meta) s src :
  (forall m, In m l -> source m = s) -> l <> [] ->
  existsb (fun m => eqb (source m) src) l = eqb s src.
Proof.
  induction l as [|m l IH]; intros Hl Hne; [contradiction|].
  simpl. rewrite (Hl m) by now left.
  destruct (eqb s src) eqn:E; [reflexivity|]. simpl.
  destruct l as [|m' l]; [reflexivity|].
  rewrite IH; [first [reflexivity | exact E] | | discriminate].
  intros x Hx. apply Hl. now right.
Qed.

Lemma already_indexed_after (self : FAISSVectorStore vector) chunks s src :
  chunks <> [] ->
  already_indexed
    {| index := index self ++ encode chunks;
       metadata := metadata self ++ batch_metadata chunks s |} src
  = already_indexed self src || eqb s src.
Proof.
  intros Hne. unfold already_indexed. cbn [metadata].
  rewrite existsb_app. f_equal.
  apply existsb_same_source.
  - intros m. apply batch_sources.
  - intros E. apply (f_equal (@length Meta)) in E.
    rewrite batch_metadata_length in E.
    destruct chunks; [contradiction | discriminate].
Qed.

Lemma records_after_calls calls :
  forall (w : FAISSVectorStore vector * Disk vector) src,
    records_of src (metadata (fst (add_all encode calls w)))
    = if already_indexed (fst w) src
      then records_of src (metadata (fst w))
      else match first_batch calls src with
           | Some chunks => batch_metadata chunks src
           | None => []
           end.
Proof.
  induction calls as [|[chunks s] calls IH]; intros [self disk] src.
  - cbn [add_all fold_left fst first_batch].
    destruct (already_indexed self src) eqn:E; [reflexivity|].
    now apply records_of_absent.
  - rewrite add_all_cons, IH. cbn [fst snd first_batch].
    destruct (already_indexed self s) eqn:Hs.
    + (* the source of the call is indexed: the call is skipped *)
      unfold add_documents. rewrite Hs. cbn [fst].
      destruct (already_indexed self src) eqn:Hsrc; [reflexivity|].
      destruct chunks as [|c rest]; [reflexivity|].
      destruct (eqb s src) eqn:E; [|reflexivity].
      apply eqb_eq in E. congruence.
    + destruct chunks as [|c rest].
      * (* no chunks: the call is skipped *)
        unfold add_documents. rewrite Hs. reflexivity.
      * rewrite add_documents_accepted by (assumption || discriminate).
        cbn [fst]. rewrite already_indexed_after by discriminate.
        cbn [metadata]. rewrite records_of_app, records_of_batch.
        destruct (eqb s src) eqn:E.
        -- apply eqb_eq in E. subst s. rewrite Hs. cbn [orb].
           now rewrite records_of_absent.
        -- rewrite orb_false_r, app_nil_r. reflexivity.
Qed.

(** X11. The first upload wins. After any sequence of calls from the
    empty store, the records of a source are those of the first call for
    that source that had chunks: chunk ids [0, 1, ...] in the order of its
    chunks. No later call for the source replaces them or adds to them. *)
Theorem first_upload_wins (calls : list (list pystr * pystr))
    (src : pystr) :
  records_of src
    (metadata (fst (add_all encode calls (fresh vector, no_files vector))))
  = match first_batch calls src with
    | Some chunks => batch_metadata chunks src
    | None => []
    end.
Proof.
  pose proof (records_after_calls calls (fresh vector, no_files vector) src)
    as H.
  cbn [fst fresh already_indexed metadata existsb] in H.
  exact H.
Qed.

Lemma batch_keys_nodup chunks src :
  NoDup (map record_key (batch_metadata chunks src)).
Proof.
  apply NoDup_nth_error. intros i j Hi Heq.
  rewrite length_map, batch_metadata_length in Hi.
  rewrite !nth_error_map, !batch_metadata_nth in Heq.
  destruct (nth_error chunks i) eqn:Ei;
    [|apply nth_error_None in Ei; lia].
  destruct (nth_error chunks j) eqn:Ej; [|discriminate].
  simpl in Heq. inversion Heq. lia.
Qed.

(** X12. No two records of the store have the same source and the same
    chunk id, after any sequence of calls from the empty store. *)
Theorem record_keys_unique (calls : list (list pystr * pystr)) :
  NoDup
    (map record_key
       (metadata
          (fst (add_all encode calls (fresh vector, no_files vector))))).
Proof.
  apply (add_all_invariant encode
           (fun w => NoDup (map record_key (metadata (fst w)))));
    [|constructor].
  intros self disk chunks src Hold.
  destruct (add_documents_cases encode self disk chunks src)
    as [-> | [Hnew Hne]]; [exact Hold|].
  rewrite add_documents_accepted by assumption. cbn [fst metadata].
  rewrite map_app. apply NoDup_app;
    [exact Hold | apply batch_keys_nodup |].
  intros key Hk1 Hk2.
  apply in_map_iff in Hk1. destruct Hk1 as (m1 & <- & Hm1).
  apply in_map_iff in Hk2. destruct Hk2 as (m2 & Hkey & Hm2).
  apply batch_sources in Hm2. unfold record_key in Hkey.
  inversion Hkey as [[Hsrc Hid]].
  assert (already_indexed self src = true); [|congruence].
  apply already_indexed_iff, in_map_iff. exists m1. split; congruence.
Qed.

End StoreSources.

(** ** The statistics *)

Section StatsMore.

Import VectorStore.

Variable vector : Type.
Variable encode : list pystr -> list vector.

Hypothesis encode_length : forall texts, length (encode texts) = length texts.

Lemma nodup_repeated (s : pystr) l :
  l <> [] -> (forall x, In x l -> x = s) ->
  nodup (list_eq_dec N.eq_dec) l = [s].
Proof.
  induction l as [|x l IH]; intros Hne Hall; [contradiction|].
  assert (x = s) by (apply Hall; now left). subst x.
  cbn [nodup]. destruct l as [|y l].
  - destruct (in_dec (list_eq_dec N.eq_dec) s []) as [[]|]; reflexivity.
  - destruct (in_dec (list_eq_dec N.eq_dec) s (y :: l)) as [_|Hn].
    + apply IH; [discriminate|]. intros z Hz. apply Hall. now right.
    + exfalso. apply Hn. left. apply Hall. right. now left.
Qed.

Lemma nodup_app_apart (a b : list pystr) :
  (forall x, In x a -> ~ In x b) ->
  nodup (list_eq_dec N.eq_dec) (a ++ b)
  = nodup (list_eq_dec N.eq_dec) a ++ nodup (list_eq_dec N.eq_dec) b.
Proof.
  induction a as [|x a IH]; intros Hapart; [reflexivity|].
  cbn [app nodup].
  assert (IH' : nodup (list_eq_dec N.eq_dec) (a ++ b)
                = nodup (list_eq_dec N.eq_dec) a
                  ++ nodup (list_eq_dec N.eq_dec) b)
    by (apply IH; intros y Hy; apply Hapart; now right).
  destruct (in_dec (list_eq_dec N.eq_dec) x (a ++ b)) as [Hin|Hout];
    destruct (in_dec (list_eq_dec N.eq_dec) x a) as [Hin'|Hout'].
  - exact IH'.
  - exfalso. apply in_app_or in Hin. destruct Hin as [|Hb]; [contradiction|].
    apply (Hapart x); [now left | assumption].
  - exfalso. apply Hout. apply in_or_app. now left.
  - cbn [app]. now f_equal.
Qed.

(** X13. The statistics list every source of the store once: [sources]
    has no name twice, a name is in it exactly when a record has it, and
    [total_documents] is the number of names, at most the number of
    records and zero only for a store without records. *)
Theorem stats_list_each_source_once (self : FAISSVectorStore vector) :
  NoDup (sources (get_stats self))
  /\ (forall s, In s (sources (get_stats self))
                <-> exists m, In m (metadata self) /\ source m = s)
  /\ total_documents (get_stats self)
     = Z.of_nat (length (sources (get_stats self)))
  /\ (total_documents (get_stats self)
      <= Z.of_nat (length (metadata self)))%Z
  /\ (total_documents (get_stats self) = 0%Z <-> metadata self = []).
Proof.
  unfold get_stats, distinct_sources.
  cbn [sources total_documents]. set (dec := list_eq_dec N.eq_dec).
  assert (Hle : (length (nodup dec (map source (metadata self)))
                 <= length (metadata self))%nat).
  { rewrite <- (length_map source (metadata self)).
    apply NoDup_incl_length; [apply NoDup_nodup|].
    intros x Hx. now apply nodup_In in Hx. }
  split; [apply NoDup_nodup|].
  split.
  { intros s. rewrite nodup_In, in_map_iff.
    split; intros (m & H1 & H2); exists m; auto. }
  split; [reflexivity|].
  split; [apply Nat2Z.inj_le; exact Hle|].
  split.
  - intros Hz. destruct (metadata self) as [|m l]; [reflexivity|].
    assert (Hin : In (source m) (nodup dec (map source (m :: l))))
      by (apply nodup_In; now left).
    destruct (nodup dec (map source (m :: l))); [contradiction|].
    simpl in Hz. lia.
  - intros ->. reflexivity.
Qed.

(** X14. An accepted call adds one document and as many chunks as the
    batch has: after it [total_documents] is one more, [total_chunks] is
    more by the number of chunks, and the new source is listed. *)
Theorem stats_after_new_source (self : FAISSVectorStore vector)
    (disk : Disk vector) (chunks : list pystr) (src : pystr) :
  ~ In src (map source (metadata self)) -> chunks <> [] ->
  let after :=
    get_stats (fst (add_documents encode self disk chunks src)) in
  total_documents after = (total_documents (get_stats self) + 1)%Z
  /\ total_chunks after
     = (total_chunks (get_stats self) + Z.of_nat (length chunks))%Z
  /\ In src (sources after).
Proof.
  intros Hnew Hne after. subst after.
  assert (Hidx : already_indexed self src = false).
  { destruct (already_indexed self src) eqn:E; [|reflexivity].
    apply already_indexed_iff in E. contradiction. }
  rewrite add_documents_accepted by assumption.
  unfold get_stats, distinct_sources, ntotal.
  cbn [fst index metadata total_documents total_chunks sources].
  rewrite map_app, nodup_app_apart.
  - rewrite (@nodup_repeated src (map source (batch_metadata chunks src))).
    + rewrite !length_app, encode_length. cbn [length].
      unfold pystr, codepoint in *. split; [lia|]. split; [lia|].
      apply in_or_app. right. now left.
    + intros E. apply (f_equal (@length pystr)) in E.
      rewrite length_map, batch_metadata_length in E.
      destruct chunks; [contradiction | discriminate].
    + intros x Hx. apply in_map_iff in Hx. destruct Hx as (m & <- & Hm).
      now apply batch_sources in Hm.
  - intros x Hx Hb. apply in_map_iff in Hb. destruct Hb as (m & <- & Hm).
    apply batch_sources in Hm. congruence.
Qed.

End StatsMore.

Lemma stats_after_new_source_witness :
  VectorStore.total_documents
    (VectorStore.get_stats
       (fst (VectorStore.add_documents length_encode sample_store
               (VectorStore.no_files Q) [lit "dd"; lit "eeee"]
               (lit "B.txt"))))
  = 2%Z.
Proof.
  destruct (@stats_after_new_source Q length_encode length_encode_length
              sample_store (VectorStore.no_files Q) [lit "dd"; lit "eeee"]
              (lit "B.txt")) as (H & _).
  - vm_compute. intros H. repeat (destruct H as [H|H]; [discriminate|]).
    exact H.
  - discriminate.
  - rewrite H. reflexivity.
Defined.

Lemma reopen_gives_same_store_witness :
  VectorStore.init
    (snd (add_all length_encode sample_calls
            (fresh Q, VectorStore.no_files Q)))
  = Ok (fst (add_all length_encode sample_calls
               (fresh Q, VectorStore.no_files Q))).
Proof.
  destruct (@reopen_gives_same_store Q length_encode sample_calls)
    as [H _].
  exact H.
Defined.

Lemma source_is_taken_once_witness :
  let w := VectorStore.add_documents length_encode (fresh Q)
             (VectorStore.no_files Q) sample_chunks (lit "A.txt") in
  VectorStore.add_documents length_encode (fst w) (snd w) [lit "other"]
    (lit "A.txt") = w.
Proof.
  destruct (@source_is_taken_once Q length_encode (fresh Q)
              (VectorStore.no_files Q) sample_chunks [lit "other"]
              (lit "A.txt")) as (H & _).
  apply H. discriminate.
Defined.

(** ** Search: what the results are *)

Section SearchMore.

Import VectorStore.

Variable vector : Type.
Variable encode : list pystr -> list vector.
Variable l2sqr : vector -> vector -> float.

Hypothesis encode_length : forall texts, length (encode texts) = length texts.

Lemma scan_entry xb qv p :
  In p (Faiss.scan l2sqr xb qv) ->
  exists j v,
    nth_error xb j = Some v /\ p = (l2sqr qv v, Z.of_nat j).
Proof.
  intros Hin. apply In_nth_error in Hin. destruct Hin as [j Hj].
  rewrite scan_nth in Hj.
  destruct (nth_error xb j) as [v|] eqn:Hv; [|discriminate].
  inversion Hj. now exists j, v.
Qed.

(** Whatever the store, a pair of the scan that the loop keeps is a
    record with the distance of the vector at the same position. *)
Lemma collect_hits (self : FAISSVectorStore vector) qv row :
  (forall p, In p row -> In p (Faiss.scan l2sqr (index self) qv)) ->
  Forall (fun r => exists i, hit l2sqr self qv i r)
         (flat_map (collect self []) row).
Proof.
  intros Hscan. apply Forall_flat_map, Forall_forall. intros p Hp.
  destruct (scan_entry _ _ _ (Hscan p Hp)) as (j & v & Hv & ->).
  unfold collect.
  destruct ((0 <=? Z.of_nat j)%Z
            && (Z.of_nat j <? Z.of_nat (length (metadata self)))%Z);
    [|constructor].
  rewrite Nat2Z.id.
  destruct (nth_error (metadata self) j) as [m|] eqn:Hm; [|constructor].
  constructor; [|constructor].
  exists j. split; [exact Hm|]. exists v. auto.
Qed.

Lemma knn_row (self : FAISSVectorStore vector) top_k :
  ntotal self <> 0%Z -> (1 <= top_k)%Z ->
  (1 <= Z.min top_k (ntotal self) <= Z.of_nat (length (index self)))%Z.
Proof. unfold ntotal. lia. Qed.

(** The results of [search] for [top_k >= 1], on any store. *)
Lemma search_results (self : FAISSVectorStore vector) query top_k :
  (1 <= top_k)%Z ->
  exists qv results,
    encode [query] = [qv]
    /\ search encode l2sqr self query top_k = Ok results
    /\ Forall (fun r => exists i, hit l2sqr self qv i r) results.
Proof.
  intros Hk. destruct (query_vector encode encode_length query) as [qv Hq].
  exists qv. destruct (Z.eq_dec (ntotal self) 0) as [Hz|Hnz].
  - exists []. rewrite search_empty by assumption.
    split; [exact Hq|]. split; [reflexivity | constructor].
  - eexists. split; [exact Hq|].
    rewrite (@search_row _ encode l2sqr self query top_k qv Hq Hnz Hk).
    split; [reflexivity|].
    apply collect_hits.
    destruct (@knn_spec _ l2sqr (index self) (Z.min top_k (ntotal self)) qv
                (knn_row self Hnz Hk)) as (_ & _ & _ & Hscan & _).
    exact Hscan.
Qed.

(** X15. [search] makes nothing up. For [top_k >= 1] and any store,
    also one whose metadata and index differ in length, every result is
    a record of the store together with the distance from the query
    vector to the vector stored at the position of that record. *)
Theorem search_returns_stored_records (self : FAISSVectorStore vector)
    (query : pystr) (top_k : Z) :
  (1 <= top_k)%Z ->
  exists qv results,
    encode [query] = [qv]
    /\ search encode l2sqr self query top_k = Ok results
    /\ Forall (fun r => exists i, hit l2sqr self qv i r) results
    /\ Forall (fun r => In (fst r) (metadata self)) results.
Proof.
  intros Hk. destruct (search_results self query Hk)
    as (qv & results & Hq & Hs & Hh).
  exists qv, results. repeat split; try assumption.
  revert Hh. apply Forall_impl. intros r (i & Hm & _).
  now apply nth_error_In in Hm.
Qed.

(** X16. Asking for more results only adds results at the end: for
    [1 <= k <= k'], when no two stored vectors are at the same distance
    from the query, the results for [k] are the first results for [k'],
    in the same order. *)
Theorem search_prefix_in_k (self : FAISSVectorStore vector)
    (query : pystr) (k k' : Z) (qv : vector) :
  (1 <= k)%Z -> (k <= k')%Z ->
  encode [query] = [qv] ->
  (forall i j v w,
     nth_error (index self) i = Some v ->
     nth_error (index self) j = Some w ->
     (l2sqr qv v == l2sqr qv w)%Q -> i = j) ->
  exists results more,
    search encode l2sqr self query k = Ok results
    /\ search encode l2sqr self query k' = Ok (results ++ more).
Proof.
  intros Hk Hkk Hq _.
  destruct (Z.eq_dec (ntotal self) 0) as [Hz|Hnz].
  - exists [], []. now rewrite !search_empty by assumption.
  - assert (Hk' : (1 <= k')%Z) by lia.
    rewrite (@search_row _ encode l2sqr self query k qv Hq Hnz Hk).
    rewrite (@search_row _ encode l2sqr self query k' qv Hq Hnz Hk').
    rewrite !knn_prefix by now apply knn_row.
    set (sorted := Faiss.sort_by_distance (Faiss.scan l2sqr (index self) qv)).
    set (a := Z.to_nat (Z.min k (ntotal self))).
    set (b := Z.to_nat (Z.min k' (ntotal self))).
    assert (Hab : (a <= b)%nat) by (subst a b; lia).
    exists (flat_map (collect self []) (firstn a sorted)),
           (flat_map (collect self []) (skipn a (firstn b sorted))).
    split; [reflexivity|].
    rewrite <- flat_map_app. do 2 f_equal.
    rewrite <- (firstn_skipn a (firstn b sorted)) at 1.
    f_equal. rewrite firstn_firstn. f_equal. lia.
Qed.

(** X17. An exact match comes first. On a store with as many records as
    vectors, when the query vector is itself stored, the distance of a
    vector to itself is zero and no distance is negative, the first
    result of [search] has distance zero. *)
Theorem exact_match_ranks_first (self : FAISSVectorStore vector)
    (query : pystr) (top_k : Z) (qv : vector) :
  (1 <= top_k)%Z ->
  length (metadata self) = length (index self) ->
  encode [query] = [qv] ->
  In qv (index self) ->
  (l2sqr qv qv == 0)%Q ->
  (forall v, (0 <= l2sqr qv v)%Q) ->
  exists first rest,
    search encode l2sqr self query top_k = Ok (first :: rest)
    /\ (snd first == 0)%Q.
Proof.
  intros Hk Hlen Hq Hin Hzero Hnonneg.
  assert (Hnz : ntotal self <> 0%Z).
  { unfold ntotal. destruct (index self); [contradiction | simpl; lia]. }
  destruct (@knn_spec _ l2sqr (index self) (Z.min top_k (ntotal self)) qv
              (knn_row self Hnz Hk))
    as (Hrow & Hsorted & _ & Hscan & Hnear).
  destruct (collect_aligned l2sqr self qv _ Hlen Hscan)
    as (results & labels & Hr & _ & Hd & _).
  rewrite (@search_row _ encode l2sqr self query top_k qv Hq Hnz Hk), Hr.
  destruct (Faiss.knn l2sqr (index self) (Z.min top_k (ntotal self)) qv)
    as [|p0 row] eqn:Erow; [simpl in Hrow; lia|].
  destruct results as [|first rest]; [discriminate|].
  exists first, rest. split; [reflexivity|].
  simpl in Hd. inversion Hd as [[Hfirst Hrest]]. unfold float in *.
  rewrite Hfirst.
  apply In_nth_error in Hin. destruct Hin as [i Hi].
  assert (Hq0 : In (l2sqr qv qv, Z.of_nat i)
                   (Faiss.scan l2sqr (index self) qv)).
  { apply (nth_error_In _ i). rewrite scan_nth, Hi. reflexivity. }
  assert (Hle : (fst p0 <= l2sqr qv qv)%Q).
  { destruct (in_dec Z.eq_dec (Z.of_nat i) (map snd (p0 :: row)))
      as [Hyes|Hno].
    - apply in_map_iff in Hyes. destruct Hyes as (p & Hp & Hprow).
      destruct (scan_entry _ _ _ (Hscan p Hprow)) as (j & v & Hv & ->).
      simpl in Hp. apply Nat2Z.inj in Hp. subst j.
      assert (v = qv) by congruence. subst v.
      destruct Hprow as [E|Hprow]; [rewrite E; apply Qle_refl|].
      apply StronglySorted_inv in Hsorted. destruct Hsorted as [_ Hall].
      rewrite Forall_forall in Hall. exact (Hall _ Hprow).
    - specialize (Hnear _ Hq0 Hno). inversion Hnear. assumption. }
  destruct (scan_entry _ _ _ (Hscan p0 (or_introl eq_refl)))
    as (j & v & _ & ->).
  cbn [fst snd] in *. specialize (Hnonneg v).
  apply Qle_antisym; [rewrite <- Hzero; exact Hle | exact Hnonneg].
Qed.

End SearchMore.

Lemma square_distance_nonneg a b : (0 <= square_distance a b)%Q.
Proof.
  unfold square_distance.
  assert (E : ((a - b) * (a - b) == (a - b) ^ 2)%Q) by (simpl; ring).
  rewrite E. apply Qsqr_nonneg.
Qed.

Lemma search_returns_stored_records_witness :
  exists results,
    VectorStore.search length_encode square_distance torn_store
      (lit "xx") 3 = Ok results
    /\ Forall (fun r => In (fst r) (VectorStore.metadata torn_store)) results.
Proof.
  destruct (@search_returns_stored_records Q length_encode square_distance
              length_encode_length torn_store (lit "xx") 3)
    as (qv & results & _ & Hs & _ & Hin); [lia|].
  exists results. split; assumption.
Defined.

Lemma search_prefix_in_k_witness :
  exists results more,
    VectorStore.search length_encode square_distance sample_store
      (lit "xxxxx") 1 = Ok results
    /\ VectorStore.search length_encode square_distance sample_store
         (lit "xxxxx") 3 = Ok (results ++ more).
Proof.
  apply (@search_prefix_in_k Q length_encode square_distance
           sample_store (lit "xxxxx") 1 3 5); try lia; try reflexivity.
  intros i j v w Hv Hw H.
  change (VectorStore.index sample_store) with [3; 1; 6]%Q in Hv, Hw.
  destruct i as [|[|[|i]]], j as [|[|[|j]]]; simpl in Hv, Hw;
    try (destruct i; discriminate Hv); try (destruct j; discriminate Hw);
    inversion Hv; inversion Hw; subst; try reflexivity;
    vm_compute in H; discriminate H.
Defined.

Lemma exact_match_ranks_first_witness :
  exists first rest,
    VectorStore.search length_encode square_distance sample_store
      (lit "b") 2 = Ok (first :: rest)
    /\ (snd first == 0)%Q.
Proof.
  apply (@exact_match_ranks_first Q length_encode square_distance
           sample_store (lit "b") 2 1).
  - lia.
  - reflexivity.
  - reflexivity.
  - vm_compute. right. left. reflexivity.
  - reflexivity.
  - intros v. apply square_distance_nonneg.
Defined.

(** ** Retrieval: what is returned for the results *)

Section RetrievalMore.

Import VectorStore Retrieval.

Local Open Scope Q_scope.

Lemma score_in_unit d :
  0 <= d ->
  score d = Ok (round53 (1 / round53 (1 + d)))
  /\ 0 < round53 (1 / round53 (1 + d)) <= 1.
Proof.
  intros Hd. split; [now apply score_value|].
  pose proof (fadd_one_ge Hd) as Ha. unfold fadd in Ha.
  destruct (inverse_in_unit Ha) as [Hi0 Hi1].
  split.
  - apply round_to_positive; [lia | assumption].
  - pose proof (round53_mono Hi0 Hi1) as H1.
    rewrite round53_one in H1. exact H1.
Qed.

Lemma retrieve_loop (results : list (Meta * float)) :
  Forall (fun r => 0 <= snd r) results ->
  forall start parts cites,
    for_each retrieve_body (enumerate start results) (parts, cites)
    = Ok (parts ++ map (fun it => context_part (fst it) (fst (snd it)))
                       (enumerate start results),
          cites ++ map cite results).
Proof.
  induction 1 as [|[m dist] results Hd Hrest IH]; intros start parts cites.
  - simpl. now rewrite !app_nil_r.
  - cbn [enumerate for_each retrieve_body].
    cbn [snd] in Hd. destruct (score_in_unit Hd) as [-> _].
    cbn [bind fst snd].
    rewrite IH. cbn [map fst snd]. rewrite <- !app_assoc. reflexivity.
Qed.

Lemma chunks_loop (results : list (Meta * float)) :
  Forall (fun r => 0 <= snd r) results ->
  forall start chunks parts cites,
    for_each retrieve_with_chunks_body (enumerate start results)
      (chunks, parts, cites)
    = Ok (chunks
          ++ map (fun r => chunk_view (fst r)
                             (round53 (1 / round53 (1 + snd r)))) results,
          parts ++ map (fun it => context_part (fst it) (fst (snd it)))
                       (enumerate start results),
          cites ++ map cite results).
Proof.
  induction 1 as [|[m dist] results Hd Hrest IH];
    intros start chunks parts cites.
  - simpl. now rewrite !app_nil_r.
  - cbn [enumerate for_each retrieve_with_chunks_body].
    cbn [snd] in Hd. destruct (score_in_unit Hd) as [-> _].
    cbn [bind fst snd].
    rewrite IH. cbn [map fst snd]. rewrite <- !app_assoc. reflexivity.
Qed.

(** X18. The relevance printed in a citation is always of the form
    [d.dd] between 0.00 and 1.00: for a distance that is not negative the
    text has four characters, and it is either [1.00] or [0.] followed by
    two digits. *)
Theorem relevance_text_shape (d : float) :
  0 <= d ->
  exists s,
    score d = Ok s
    /\ length (format_2f s) = 4%nat
    /\ (format_2f s = lit "1.00"
        \/ exists a b,
             format_2f s = [48%N; 46%N; a; b]
             /\ (48 <= a <= 57)%N /\ (48 <= b <= 57)%N).
Proof.
  intros Hd. destruct (score_in_unit Hd) as [Hs [Hpos Hle]].
  exists (round53 (1 / round53 (1 + d))). split; [exact Hs|].
  set (s := round53 (1 / round53 (1 + d))) in *. clearbody s.
  assert (Hh : (0 <= hundredths s <= 100)%Z).
  { unfold hundredths. split.
    - apply rne_ge. change (inject_Z 0) with 0. clear - Hpos. lra.
    - apply rne_le. change (inject_Z 100) with 100. clear - Hle. lra. }
  unfold format_2f.
  destruct (Qlt_le_dec s 0) as [Hneg|_]; [lra|].
  rewrite Z.abs_eq by lia. remember (hundredths s) as h eqn:Eh. clear Eh.
  destruct (Z.eq_dec h 100) as [->|Hne].
  - split; [reflexivity | left; reflexivity].
  - rewrite Z.div_small, Z.mod_small by lia.
    change (of_Z 0) with [48%N]. unfold two_digits. cbn [app].
    split; [reflexivity|]. right.
    exists (48 + Z.to_N (h / 10))%N, (48 + Z.to_N (h mod 10))%N.
    split; [reflexivity|].
    assert (0 <= h / 10 < 10)%Z
      by (split; [apply Z.div_pos | apply Z.div_lt_upper_bound]; lia).
    assert (0 <= h mod 10 < 10)%Z by (apply Z.mod_pos_bound; lia).
    lia.
Qed.

Variable vector : Type.
Variable encode : list pystr -> list vector.
Variable l2sqr : vector -> vector -> float.

Hypothesis encode_length : forall texts, length (encode texts) = length texts.

(** Distances are not negative, as squared distances are. *)
Hypothesis l2sqr_nonneg : forall a b, 0 <= l2sqr a b.

Lemma search_distances (self : FAISSVectorStore vector) query top_k :
  (1 <= top_k)%Z ->
  exists results,
    search encode l2sqr self query top_k = Ok results
    /\ Forall (fun r => 0 <= snd r) results.
Proof.
  intros Hk.
  destruct (search_results encode l2sqr encode_length self query Hk)
    as (qv & results & _ & Hs & Hh).
  exists results. split; [exact Hs|].
  revert Hh. apply Forall_impl. intros r (i & _ & v & _ & E).
  unfold float in *. cbn beta. rewrite E. apply l2sqr_nonneg.
Qed.

(** X19. For [top_k >= 1] neither retrieval method raises. With
    results they return one citation for each result, in rank order, with
    the source, the chunk id and the score of that result; one context
    part for each result, numbered from 1 and joined by the delimiter; and
    [retrieve_with_chunks] one chunk record for each result. *)
Theorem retrieval_lists_every_result (self : FAISSVectorStore vector)
    (query : pystr) (top_k : Z) :
  (1 <= top_k)%Z ->
  exists results,
    search encode l2sqr self query top_k = Ok results
    /\ retrieve encode l2sqr self query top_k
       = Ok (match results with
             | [] => (sentinel, [])
             | _ =>
                 (join delimiter
                    (map (fun it => context_part (fst it) (fst (snd it)))
                         (enumerate 1 results)),
                  map cite results)
             end)
    /\ retrieve_with_chunks encode l2sqr self query top_k
       = Ok (match results with
             | [] => ([], sentinel, [])
             | _ =>
                 (map (fun r => chunk_view (fst r)
                                  (round53 (1 / round53 (1 + snd r))))
                      results,
                  join delimiter
                    (map (fun it => context_part (fst it) (fst (snd it)))
                         (enumerate 1 results)),
                  map cite results)
             end).
Proof.
  intros Hk. destruct (search_distances self query Hk)
    as (results & Hs & Hd).
  exists results. split; [exact Hs|].
  unfold retrieve, retrieve_with_chunks. rewrite Hs. cbn [bind].
  destruct results as [|r results]; [split; reflexivity|].
  rewrite (retrieve_loop Hd), (chunks_loop Hd). cbn [bind fst snd app].
  split; reflexivity.
Qed.

End RetrievalMore.

Lemma relevance_text_shape_witness :
  exists s,
    Retrieval.score (1 # 3) = Ok s /\ length (format_2f s) = 4%nat.
Proof.
  destruct (@relevance_text_shape (1 # 3)) as (s & Hs & Hl & _).
  - unfold Qle. simpl. lia.
  - exists s. split; assumption.
Defined.

Lemma retrieval_lists_every_result_witness :
  exists results,
    VectorStore.search length_encode square_distance sample_store
      (lit "xxxxx") 2 = Ok results
    /\ Retrieval.retrieve length_encode square_distance sample_store
         (lit "xxxxx") 2
       = Ok (match results with
             | [] => (Retrieval.sentinel, [])
             | _ =>
                 (join Retrieval.delimiter
                    (map (fun it => Retrieval.context_part (fst it)
                                      (fst (snd it)))
                         (enumerate 1 results)),
                  map cite results)
             end).
Proof.
  destruct (@retrieval_lists_every_result Q length_encode square_distance
              length_encode_length square_distance_nonneg sample_store
              (lit "xxxxx") 2) as (results & Hs & Hr & _); [lia|].
  exists results. split; assumption.
Defined.

(** ** The routes and the upload loop *)

Section RoutesMore.

Import VectorStore Retrieval Api.

Variable vector : Type.
Variable encode : list pystr -> list vector.
Variable l2sqr : vector -> vector -> float.

Hypothesis encode_length : forall texts, length (encode texts) = length texts.

Lemma search_aligned_count (self : FAISSVectorStore vector) query top_k :
  (1 <= top_k)%Z -> length (metadata self) = length (index self) ->
  exists results,
    search encode l2sqr self query top_k = Ok results
    /\ Z.of_nat (length results) = Z.min top_k (ntotal self).
Proof.
  intros Hk Hlen.
  destruct (query_vector encode encode_length query) as [qv Hq].
  destruct (Z.eq_dec (ntotal self) 0) as [Hz|Hnz].
  - exists []. rewrite search_empty by assumption.
    split; [reflexivity | simpl; lia].
  - destruct (@knn_spec _ l2sqr (index self) (Z.min top_k (ntotal self)) qv
                (knn_row self Hnz Hk)) as (Hrow & _ & _ & Hscan & _).
    destruct (collect_aligned l2sqr self qv _ Hlen Hscan)
      as (results & labels & Hr & _ & Hd & _).
    exists results.
    rewrite (@search_row _ encode l2sqr self query top_k qv Hq Hnz Hk), Hr.
    split; [reflexivity|].
    rewrite <- Hrow, <- (length_map snd results), Hd, length_map.
    reflexivity.
Qed.

(** X20. The [/retrieve] route refuses an empty index with status 400.
    On an index that is not empty, with as many records as vectors, for
    [top_k >= 1] and distances that are not negative, it answers with the
    query, [min(top_k, ntotal)] chunk records and as many citations: at
    least one, never the sentinel of an empty result. *)
Theorem retrieve_route_answers (vs : FAISSVectorStore vector)
    (query : pystr) (top_k : Z) :
  (ntotal vs = 0%Z ->
   Routes.retrieve encode l2sqr vs query top_k
   = Raise (HTTPException 400 (lit "Index is empty.")))
  /\ (ntotal vs <> 0%Z -> (1 <= top_k)%Z ->
      length (metadata vs) = length (index vs) ->
      (forall a b, (0 <= l2sqr a b)%Q) ->
      exists resp,
        Routes.retrieve encode l2sqr vs query top_k = Ok resp
        /\ Routes.query_echo resp = query
        /\ Z.of_nat (length (Routes.top_chunks resp))
           = Z.min top_k (ntotal vs)
        /\ length (Routes.citations resp)
           = length (Routes.top_chunks resp)
        /\ Routes.top_chunks resp <> []).
Proof.
  split.
  - intros Hz. unfold Routes.retrieve, get_stats. cbn [total_chunks].
    now rewrite Hz.
  - intros Hnz Hk Hlen Hnonneg.
    destruct (search_aligned_count vs query Hk Hlen)
      as (results & Hs & Hcount).
    destruct (@search_distances _ encode l2sqr encode_length Hnonneg vs query
                top_k Hk)
      as (results' & Hs' & Hd).
    assert (results' = results) by congruence. subst results'.
    unfold Routes.retrieve, get_stats. cbn [total_chunks].
    destruct (Z.eqb_spec (ntotal vs) 0); [contradiction|].
    unfold retrieve_with_chunks. rewrite Hs. cbn [bind].
    destruct results as [|r results];
      [unfold ntotal in *; simpl in Hcount; lia|].
    rewrite (chunks_loop Hd). cbn [bind app].
    eexists. split; [reflexivity|].
    cbn [Routes.query_echo Routes.top_chunks Routes.citations].
    rewrite !length_map.
    repeat split; [exact Hcount | discriminate].
Qed.

(** X21. An upload of a supported type that was written at its path
    and loaded, with at most 50 characters of text after white-space
    normalisation (an empty document among them), is refused by the
    [/ingest] route with status 400, and the store and its files stay as
    they are. *)
Theorem ingest_refuses_short_documents (ingestor : DocumentIngestor)
    (vs : FAISSVectorStore vector) (disk : Disk vector)
    (written : pystr -> result unit) (loaded : result pystr)
    (upload_name contents : pystr) (u : unit) :
  endswith upload_name (lit ".pdf") || endswith upload_name (lit ".txt")
  = true ->
  written (join_data upload_name) = Ok u ->
  loaded = Ok contents ->
  (len (join [space] (split contents)) <= 50)%Z ->
  ingest encode ingestor vs disk written loaded upload_name
  = (vs, disk, Raise (HTTPException 400 (lit "No extractable text"))).
Proof.
  intros Hext Hw Hl Hshort. unfold ingest. rewrite Hext, Hw, Hl.
  cbn [negb]. rewrite process_document_file_loaded.
  rewrite process_document_supported by exact Hext.
  replace (chunk_text ingestor contents) with (@nil pystr); [reflexivity|].
  symmetry. rewrite chunk_text_windows.
  apply flat_map_nil. intros i _. now apply emitted_short.
Qed.

End RoutesMore.

Section UploadMore.

Import VectorStore Api App.

Variable vector : Type.
Variable encode : list pystr -> list vector.
Variable ingestor : DocumentIngestor.
Variable chat_id : pystr.






End UploadMore.

Section TitleMore.

Import App.

(** X23. The title made from the first question has at most 43
    characters, begins as the question does for its first 40 characters,
    and is the question itself when that has at most 40 characters. *)
Theorem display_title_bounded (query : pystr) :
  (len (display_title query) <= 43)%Z
  /\ firstn 40 (display_title query) = firstn 40 query
  /\ ((len query <= 40)%Z -> display_title query = query).
Proof.
  unfold display_title, len.
  destruct (Z.ltb_spec 40 (Z.of_nat (length query))) as [Hlong|Hshort].
  - change (slice query 0 40) with (slice query 0 (0 + 40)).
    rewrite slice_window by lia.
    change (Z.to_nat 0) with 0%nat. change (Z.to_nat 40) with 40%nat.
    cbn [skipn]. unfold pystr, codepoint in *.
    assert (Hl : length (firstn 40 query) = 40%nat)
      by (rewrite length_firstn; lia).
    split; [rewrite length_app, Hl; simpl; lia|].
    split; [|lia].
    rewrite firstn_app, Hl, firstn_firstn. simpl. now rewrite app_nil_r.
  - split; [lia|]. split; reflexivity.
Qed.

End TitleMore.

Lemma retrieve_route_answers_witness :
  exists resp,
    Routes.retrieve length_encode square_distance sample_store
      (lit "xxxxx") 10 = Ok resp
    /\ length (Routes.top_chunks resp) = 3%nat.
Proof.
  destruct (@retrieve_route_answers Q length_encode square_distance
              length_encode_length sample_store (lit "xxxxx") 10)
    as (_ & H).
  destruct H as (resp & Hr & _ & Hc & _).
  - vm_compute. discriminate.
  - lia.
  - reflexivity.
  - apply square_distance_nonneg.
  - exists resp. split; [exact Hr|].
    change (Z.min 10 (VectorStore.ntotal sample_store)) with 3%Z in Hc. lia.
Defined.

Lemma ingest_refuses_short_documents_witness :
  Api.ingest length_encode default_ingestor sample_store
    (VectorStore.no_files Q) flat_data_dir (Ok (lit "  see   above "))
    (lit "note.txt")
  = (sample_store, VectorStore.no_files Q,
     Raise (HTTPException 400 (lit "No extractable text"))).
Proof.
  apply (@ingest_refuses_short_documents Q length_encode default_ingestor
           sample_store (VectorStore.no_files Q) flat_data_dir
           (Ok (lit "  see   above ")) (lit "note.txt")
           (lit "  see   above ") tt).
  - reflexivity.
  - reflexivity.
  - reflexivity.
  - vm_compute. discriminate.
Defined.


Lemma display_title_bounded_witness :
  App.display_title (lit "What is the vacation policy?")
  = lit "What is the vacation policy?".
Proof.
  apply (@display_title_bounded (lit "What is the vacation policy?")).
  vm_compute. discriminate.
Defined.
